(** * QMC5883LCompass: the reading pipeline of the magnetometer driver

    A shallow embedding of [QMC5883LCompass.cpp] / [QMC5883LCompass.h]:
    sample acquisition over the two-wire bus, calibration, rolling-window
    smoothing, the axis getters and the 16-point bearing.

    Conventions of the embedding.
    - Integer values are [Z].  The widths are those of the AVR boards the
      sketch targets ([int] 16 bits, [long] 32 bits, [byte] 8 bits,
      [float] = [double] = IEEE binary32); the running sums are declared
      [long] in the source precisely because [int] is too narrow for them.
      Every arithmetic result is wrapped to the width of its C++ type.
    - Operations without a defined result (integer division by zero, a
      floating value converted to an integer type that cannot hold it, a
      row outside the bearing table) make the enclosing function return
      [None].  The history is read through [hist_get]; the predicate [wf]
      keeps the cursor and the window inside its ten rows.
    - The two-wire bus is an interface ([TwoWire]); the driver threads the
      bus state explicitly. *)

From Stdlib Require Import ZArith QArith Qround Lia List Ascii String.
From Stdlib Require Import Floats.SpecFloat.
From stdpp Require Import base option list.

#[local] Open Scope Z_scope.

(** ** Machine integers *)

Module Mach.

Definition int_bits  : Z := 16.
Definition long_bits : Z := 32.

(** Two's-complement wrap-around of [x] to a signed [w]-bit value. *)
Definition swrap (w x : Z) : Z := (x + 2 ^ (w - 1)) mod 2 ^ w - 2 ^ (w - 1).

(** Wrap-around of [x] to an unsigned [w]-bit value. *)
Definition uwrap (w x : Z) : Z := x mod 2 ^ w.

Definition to_int   (x : Z) : Z := swrap int_bits x.
Definition to_long  (x : Z) : Z := swrap long_bits x.
Definition to_int16 (x : Z) : Z := swrap 16 x.
Definition to_ulong (x : Z) : Z := uwrap long_bits x.

Definition in_int  (x : Z) : Prop := - 2 ^ (int_bits - 1) <= x < 2 ^ (int_bits - 1).
Definition in_long (x : Z) : Prop := - 2 ^ (long_bits - 1) <= x < 2 ^ (long_bits - 1).

Definition in_intb (x : Z) : bool :=
  (- 2 ^ (int_bits - 1) <=? x) && (x <? 2 ^ (int_bits - 1)).

End Mach.
Import Mach.

(** ** Floating point

    [float] and [double] are IEEE binary32 on the target; the operations
    are those of the standard library's executable specification. *)

Module F32.

Definition prec : Z := 24.
Definition emax : Z := 128.

Definition float := spec_float.

(** Conversion of an integer to [float] (round to nearest even). *)
Definition of_Z (z : Z) : float := binary_normalize prec emax z 0 false.

(** The literal [m * 2^e]. *)
Definition lit (m e : Z) : float := binary_normalize prec emax m e false.

Definition div (x y : float) : float := SFdiv prec emax x y.
Definition mul (x y : float) : float := SFmul prec emax x y.
Definition geb (x y : float) : bool := SFleb y x.

(** Integer part of a finite float, rounded toward zero. *)
Definition trunc (f : float) : option Z :=
  match f with
  | S754_zero _ => Some 0
  | S754_finite s m e =>
      let v := if 0 <=? e then Z.pos m * 2 ^ e else Z.pos m / 2 ^ (- e) in
      Some (if s then - v else v)
  | S754_infinity _ | S754_nan => None
  end.

(** [floor] and [ceil] of <math.h>. *)
Definition floor (f : float) : float :=
  match f with
  | S754_finite s m e =>
      if 0 <=? e then f
      else
        let q := Z.pos m / 2 ^ (- e) in
        let exact := Z.pos m mod 2 ^ (- e) =? 0 in
        of_Z (if s then - (if exact then q else q + 1) else q)
  | _ => f
  end.

Definition ceil (f : float) : float :=
  match f with
  | S754_finite s m e =>
      if 0 <=? e then f
      else
        let q := Z.pos m / 2 ^ (- e) in
        let exact := Z.pos m mod 2 ^ (- e) =? 0 in
        of_Z (if s then - q else (if exact then q else q + 1))
  | _ => f
  end.

(** Floating-to-integer conversions: the value is truncated; there is no
    defined result when the truncated value does not fit the target. *)
Definition to_int (f : float) : option Z :=
  v ← trunc f; if in_intb v then Some v else None.

Definition to_ulong (f : float) : option Z :=
  v ← trunc f; if (0 <=? v) && (v <? 2 ^ long_bits) then Some v else None.

Definition to_byte (f : float) : option Z :=
  v ← trunc f; if (0 <=? v) && (v <? 2 ^ 8) then Some v else None.

End F32.

(** ** Arrays of three: one cell per axis *)

Inductive axis : Type := AxX | AxY | AxZ.

(** The index the source uses for an axis. *)
Definition axis_index (i : axis) : Z :=
  match i with AxX => 0 | AxY => 1 | AxZ => 2 end.

Record arr3 (A : Type) : Type := Arr3 { a_x : A; a_y : A; a_z : A }.
Arguments Arr3 {A} _ _ _.
Arguments a_x {A} _.
Arguments a_y {A} _.
Arguments a_z {A} _.

Definition get3 {A} (v : arr3 A) (i : axis) : A :=
  match i with AxX => a_x v | AxY => a_y v | AxZ => a_z v end.

Definition set3 {A} (v : arr3 A) (i : axis) (x : A) : arr3 A :=
  match i with
  | AxX => Arr3 x (a_y v) (a_z v)
  | AxY => Arr3 (a_x v) x (a_z v)
  | AxZ => Arr3 (a_x v) (a_y v) x
  end.

Notation "v .[ i ]" := (get3 v i) (at level 1, left associativity, format "v .[ i ]").

(** ** The two-wire bus

    The driver uses five operations of the [Wire] object; each takes and
    returns the state of the bus. *)

Class TwoWire (W : Type) : Type := {
  Wire_begin : W -> W;
  Wire_beginTransmission : Z -> W -> W;
  Wire_write : Z -> W -> W;
  Wire_endTransmission : W -> Z * W;
  Wire_requestFrom : Z -> Z -> W -> W;
  Wire_read : W -> Z * W
}.

(** A bus that answers from a script and records every call. *)
Inductive bus_call : Type :=
| CallBegin
| CallBeginTransmission (addr : Z)
| CallWrite (b : Z)
| CallEndTransmission
| CallRequestFrom (addr n : Z)
| CallRead.

Record ScriptedBus : Type := MkBus {
  sb_status : Z;            (* what [endTransmission] reports *)
  sb_device : list Z;       (* the bytes the device will send *)
  sb_rx : list Z;           (* the receive buffer *)
  sb_log : list bus_call    (* the calls made so far, oldest first *)
}.

Definition sb_call (c : bus_call) (w : ScriptedBus) : ScriptedBus :=
  MkBus (sb_status w) (sb_device w) (sb_rx w) (sb_log w ++ [c]).

#[export] Instance ScriptedBus_TwoWire : TwoWire ScriptedBus := {
  Wire_begin w := sb_call CallBegin w;
  Wire_beginTransmission addr w := sb_call (CallBeginTransmission addr) w;
  Wire_write b w := sb_call (CallWrite b) w;
  Wire_endTransmission w := (sb_status w, sb_call CallEndTransmission w);
  Wire_requestFrom addr n w :=
    let k := Z.to_nat n in
    MkBus (sb_status w) (drop k (sb_device w)) (take k (sb_device w))
          (sb_log w ++ [CallRequestFrom addr n]);
  Wire_read w :=
    match sb_rx w with
    | b :: rx => (b, MkBus (sb_status w) (sb_device w) rx (sb_log w ++ [CallRead]))
    | [] => (-1, sb_call CallRead w)
    end
}.

(** ** The driver object *)

Record Compass : Type := MkCompass {
  _smoothUse : bool;
  _smoothSteps : Z;                  (* byte *)
  _smoothAdvanced : bool;
  _ADDR : Z;                         (* byte *)
  _vRaw : arr3 Z;                    (* int [3] *)
  _vHistory : list (arr3 Z);         (* int [10][3] *)
  _vScan : Z;                        (* int *)
  _vTotals : arr3 Z;                 (* long [3] *)
  _vSmooth : arr3 Z;                 (* int [3] *)
  _calibrationUse : bool;
  _vCalibration : arr3 (Z * Z);      (* int [3][2]: (min, max) per axis *)
  _vCalibrated : arr3 Z              (* int [3] *)
}.

(** The object as the sketches create it: a variable at file scope, so the
    members without an initialiser ([_vHistory], [_vCalibration],
    [_vCalibrated]) start zeroed. *)
Definition fresh : Compass := {|
  _smoothUse := false;
  _smoothSteps := 5;
  _smoothAdvanced := false;
  _ADDR := 13;
  _vRaw := Arr3 0 0 0;
  _vHistory := replicate 10 (Arr3 0 0 0);
  _vScan := 0;
  _vTotals := Arr3 0 0 0;
  _vSmooth := Arr3 0 0 0;
  _calibrationUse := false;
  _vCalibration := Arr3 (0, 0) (0, 0) (0, 0);
  _vCalibrated := Arr3 0 0 0
|}.

Definition with_vRaw (v : arr3 Z) (st : Compass) : Compass :=
  MkCompass (_smoothUse st) (_smoothSteps st) (_smoothAdvanced st) (_ADDR st)
    v (_vHistory st) (_vScan st) (_vTotals st) (_vSmooth st)
    (_calibrationUse st) (_vCalibration st) (_vCalibrated st).

Definition with_vHistory (h : list (arr3 Z)) (st : Compass) : Compass :=
  MkCompass (_smoothUse st) (_smoothSteps st) (_smoothAdvanced st) (_ADDR st)
    (_vRaw st) h (_vScan st) (_vTotals st) (_vSmooth st)
    (_calibrationUse st) (_vCalibration st) (_vCalibrated st).

Definition with_vScan (c : Z) (st : Compass) : Compass :=
  MkCompass (_smoothUse st) (_smoothSteps st) (_smoothAdvanced st) (_ADDR st)
    (_vRaw st) (_vHistory st) c (_vTotals st) (_vSmooth st)
    (_calibrationUse st) (_vCalibration st) (_vCalibrated st).

Definition with_vTotals (t : arr3 Z) (st : Compass) : Compass :=
  MkCompass (_smoothUse st) (_smoothSteps st) (_smoothAdvanced st) (_ADDR st)
    (_vRaw st) (_vHistory st) (_vScan st) t (_vSmooth st)
    (_calibrationUse st) (_vCalibration st) (_vCalibrated st).

Definition with_vSmooth (v : arr3 Z) (st : Compass) : Compass :=
  MkCompass (_smoothUse st) (_smoothSteps st) (_smoothAdvanced st) (_ADDR st)
    (_vRaw st) (_vHistory st) (_vScan st) (_vTotals st) v
    (_calibrationUse st) (_vCalibration st) (_vCalibrated st).

Definition with_vCalibrated (v : arr3 Z) (st : Compass) : Compass :=
  MkCompass (_smoothUse st) (_smoothSteps st) (_smoothAdvanced st) (_ADDR st)
    (_vRaw st) (_vHistory st) (_vScan st) (_vTotals st) (_vSmooth st)
    (_calibrationUse st) (_vCalibration st) v.

(** ** Configuration *)

Definition setADDR (b : Z) (st : Compass) : Compass :=
  MkCompass (_smoothUse st) (_smoothSteps st) (_smoothAdvanced st) b
    (_vRaw st) (_vHistory st) (_vScan st) (_vTotals st) (_vSmooth st)
    (_calibrationUse st) (_vCalibration st) (_vCalibrated st).

Definition setSmoothing (steps : Z) (adv : bool) (st : Compass) : Compass :=
  MkCompass true (if 10 <? steps then 10 else steps) (if adv then true else false)
    (_ADDR st) (_vRaw st) (_vHistory st) (_vScan st) (_vTotals st) (_vSmooth st)
    (_calibrationUse st) (_vCalibration st) (_vCalibrated st).

Definition setCalibration (x_min x_max y_min y_max z_min z_max : Z)
    (st : Compass) : Compass :=
  MkCompass (_smoothUse st) (_smoothSteps st) (_smoothAdvanced st) (_ADDR st)
    (_vRaw st) (_vHistory st) (_vScan st) (_vTotals st) (_vSmooth st)
    true (Arr3 (x_min, x_max) (y_min, y_max) (z_min, z_max)) (_vCalibrated st).

(** ** Sample acquisition: reassembling one axis

    [(int)(int16_t)(Wire.read() | Wire.read() << 8)], with the first byte
    read as the left operand.  Both operands are [int]. *)

Definition reassemble (lo hi : Z) : Z :=
  to_int (to_int16 (Z.lor lo (to_int (Z.shiftl hi 8)))).

(** The two bytes of a 16-bit two's-complement output register, least
    significant first, as the device puts them on the bus. *)
Definition low_byte  (v : Z) : Z := Z.land v 255.
Definition high_byte (v : Z) : Z := Z.land (Z.shiftr v 8) 255.

(** ** Register writes *)

Section Driver.

Context {W : Type} `{TwoWire W}.

Definition _writeReg (r v : Z) (st : Compass) (w : W) : W :=
  let w := Wire_beginTransmission (_ADDR st) w in
  let w := Wire_write r w in
  let w := Wire_write v w in
  snd (Wire_endTransmission w).

Definition setMode (mode odr rng osr : Z) (st : Compass) (w : W) : W :=
  _writeReg 9 (Z.lor (Z.lor (Z.lor mode odr) rng) osr) st w.

Definition setReset (st : Compass) (w : W) : W :=
  _writeReg 10 128 st w.

Definition init (st : Compass) (w : W) : W :=
  let w := Wire_begin w in
  let w := _writeReg 11 1 st w in
  setMode 1 12 16 0 st w.

End Driver.

(** ** Calibration

    One axis of [_applyCalibration]: [(raw - offset) * scale] stored into
    an [int]. *)
Definition scale_axis (raw offset : Z) (scale : F32.float) : option Z :=
  F32.to_int (F32.mul (F32.of_Z (to_int (raw - offset))) scale).

Definition _applyCalibration (st : Compass) : option Compass :=
  let cal := _vCalibration st in
  let x_offset := to_int (fst cal.[AxX] + snd cal.[AxX]) ÷ 2 in
  let y_offset := to_int (fst cal.[AxY] + snd cal.[AxY]) ÷ 2 in
  let z_offset := to_int (fst cal.[AxZ] + snd cal.[AxZ]) ÷ 2 in
  let x_avg_delta := to_int (snd cal.[AxX] - fst cal.[AxX]) ÷ 2 in
  let y_avg_delta := to_int (snd cal.[AxY] - fst cal.[AxY]) ÷ 2 in
  let z_avg_delta := to_int (snd cal.[AxZ] - fst cal.[AxZ]) ÷ 2 in
  let avg_delta := to_int (to_int (x_avg_delta + y_avg_delta) + z_avg_delta) ÷ 3 in
  let x_scale := F32.div (F32.of_Z avg_delta) (F32.of_Z x_avg_delta) in
  let y_scale := F32.div (F32.of_Z avg_delta) (F32.of_Z y_avg_delta) in
  let z_scale := F32.div (F32.of_Z avg_delta) (F32.of_Z z_avg_delta) in
  cx ← scale_axis (_vRaw st).[AxX] x_offset x_scale;
  cy ← scale_axis (_vRaw st).[AxY] y_offset y_scale;
  cz ← scale_axis (_vRaw st).[AxZ] z_offset z_scale;
  Some (with_vCalibrated (Arr3 cx cy cz) st).

(** ** Smoothing *)

(** [_vHistory[j][i]]; the array has ten rows. *)
Definition hist_get (h : list (arr3 Z)) (j : nat) (i : axis) : Z :=
  match h !! j with Some row => row.[i] | None => 0 end.

(** [_vHistory[j][i] = v]. *)
Definition hist_set (h : list (arr3 Z)) (j : nat) (i : axis) (v : Z) : list (arr3 Z) :=
  match h !! j with Some row => <[j := set3 row i v]> h | None => h end.

(** [max = 0; for (j = 0; j < n; j++) max = (H[j][i] > H[max][i]) ? j : max;] *)
Definition scan_max (h : list (arr3 Z)) (i : axis) (n : nat) : nat :=
  foldl (fun max j => if hist_get h j i >? hist_get h max i then j else max) 0%nat (seq 0 n).

(** [min = 0; for (k = 0; k < n; k++) min = (H[k][i] < H[min][i]) ? k : min;] *)
Definition scan_min (h : list (arr3 Z)) (i : axis) (n : nat) : nat :=
  foldl (fun min k => if hist_get h k i <? hist_get h min i then k else min) 0%nat (seq 0 n).

(** The body of the [for (i ...)] loop of [_smoothing] for axis [i]. *)
Definition smooth_axis (i : axis) (st : Compass) : option Compass :=
  let scan := Z.to_nat (_vScan st) in
  let steps := _smoothSteps st in
  let t0 := (_vTotals st).[i] in
  let t1 := if t0 =? 0 then t0 else to_long (t0 - hist_get (_vHistory st) scan i) in
  let h := hist_set (_vHistory st) scan i
             (if _calibrationUse st then (_vCalibrated st).[i] else (_vRaw st).[i]) in
  let t2 := to_long (t1 + hist_get h scan i) in
  let st := with_vTotals (set3 (_vTotals st) i t2) (with_vHistory h st) in
  if _smoothAdvanced st then
    let max := scan_max h i (Z.to_nat (steps - 1)) in
    let min := scan_min h i (Z.to_nat (steps - 1)) in
    if steps - 2 =? 0 then None
    else
      Some (with_vSmooth
              (set3 (_vSmooth st) i
                 (to_int (to_long (t2 - to_int (hist_get h max i + hist_get h min i))
                          ÷ (steps - 2))))
              st)
  else
    if steps =? 0 then None
    else Some (with_vSmooth (set3 (_vSmooth st) i (to_int (t2 ÷ steps))) st).

Definition _smoothing (st : Compass) : option Compass :=
  let st := if _smoothSteps st - 1 <? _vScan st then with_vScan 0 st else st in
  st ← smooth_axis AxX st;
  st ← smooth_axis AxY st;
  st ← smooth_axis AxZ st;
  Some (with_vScan (to_int (_vScan st + 1)) st).

Section Read.

Context {W : Type} `{TwoWire W}.

Definition read (st : Compass) (w : W) : option (Compass * W) :=
  let w := Wire_beginTransmission (_ADDR st) w in
  let w := Wire_write 0 w in
  let '(err, w) := Wire_endTransmission w in
  if err =? 0 then
    let w := Wire_requestFrom (_ADDR st) 6 w in
    let '(x_lo, w) := Wire_read w in
    let '(x_hi, w) := Wire_read w in
    let '(y_lo, w) := Wire_read w in
    let '(y_hi, w) := Wire_read w in
    let '(z_lo, w) := Wire_read w in
    let '(z_hi, w) := Wire_read w in
    let st := with_vRaw (Arr3 (reassemble x_lo x_hi) (reassemble y_lo y_hi)
                              (reassemble z_lo z_hi)) st in
    st ← (if _calibrationUse st then _applyCalibration st else Some st);
    st ← (if _smoothUse st then _smoothing st else Some st);
    Some (st, w)
  else Some (st, w).

End Read.

(** ** Axis getters *)

Definition _get (st : Compass) (i : axis) : Z :=
  if _smoothUse st then (_vSmooth st).[i]
  else if _calibrationUse st then (_vCalibrated st).[i]
  else (_vRaw st).[i].

Definition getX (st : Compass) : Z := _get st AxX.
Definition getY (st : Compass) : Z := _get st AxY.
Definition getZ (st : Compass) : Z := _get st AxZ.

(** ** Bearing and direction *)

(** [a] and [r] are [unsigned long]: the quotient is truncated when it is
    stored, and [r] is a difference of integers. *)
Definition getBearing (azimuth : Z) : option Z :=
  a ← F32.to_ulong (F32.div (F32.of_Z azimuth) (F32.lit 45 (-1)));
  let r := to_ulong (a - to_ulong (to_int a)) in
  F32.to_byte (if F32.geb (F32.of_Z r) (F32.lit 1 (-1))
               then F32.ceil (F32.of_Z a)
               else F32.floor (F32.of_Z a)).

Definition _bearings : list (arr3 ascii) := [
  Arr3 " " " " "N";
  Arr3 "N" "N" "E";
  Arr3 " " "N" "E";
  Arr3 "E" "N" "E";
  Arr3 " " " " "E";
  Arr3 "E" "S" "E";
  Arr3 " " "S" "E";
  Arr3 "S" "S" "E";
  Arr3 " " " " "S";
  Arr3 "S" "S" "W";
  Arr3 " " "S" "W";
  Arr3 "W" "S" "W";
  Arr3 " " " " "W";
  Arr3 "W" "N" "W";
  Arr3 " " "N" "W";
  Arr3 "N" "N" "W"
]%char.

(** The three characters [getDirection] stores into the caller's array;
    [None] when the row index is outside the table. *)
Definition getDirection (azimuth : Z) : option (arr3 ascii) :=
  d ← getBearing azimuth;
  row ← _bearings !! Z.to_nat d;
  Some (Arr3 row.[AxX] row.[AxY] row.[AxZ]).

(** ** Acquisition from a scripted device *)

(** The six bytes the device sends for one sample. *)
Definition sample_bytes (v : arr3 Z) : list Z :=
  [low_byte v.[AxX]; high_byte v.[AxX];
   low_byte v.[AxY]; high_byte v.[AxY];
   low_byte v.[AxZ]; high_byte v.[AxZ]].

(** A responsive device that will deliver [samples] in order. *)
Definition device (samples : list (arr3 Z)) : ScriptedBus :=
  MkBus 0 (samples ≫= sample_bytes) [] [].

(** [n] calls of [read] in a row. *)
Fixpoint read_n (n : nat) (st : Compass) (w : ScriptedBus) : option (Compass * ScriptedBus) :=
  match n with
  | O => Some (st, w)
  | S n => p ← read st w; read_n n p.1 p.2
  end.

(** The driver after it has read all of [samples]. *)
Definition acquire (samples : list (arr3 Z)) (st : Compass) : option Compass :=
  fst <$> read_n (length samples) st (device samples).

(** A sample that carries [v] on axis [i] and unrelated values elsewhere. *)
Definition sample_on (i : axis) (v : Z) : arr3 Z :=
  set3 (Arr3 (- v) (v + 1000) (3 * v)) i v.

(** ** Vocabulary of the properties *)

Definition Zsum (l : list Z) : Z := foldr Z.add 0 l.

(** The window of axis [i]: slots [0 .. _smoothSteps - 1] of the history. *)
Definition window (st : Compass) (i : axis) : list Z :=
  (fun row => row.[i]) <$> take (Z.to_nat (_smoothSteps st)) (_vHistory st).

Definition window_sum (st : Compass) (i : axis) : Z := Zsum (window st i).

(** The slot an update writes: the cursor, reset when it has run past the
    window. *)
Definition slot (st : Compass) : Z :=
  if _smoothSteps st - 1 <? _vScan st then 0 else _vScan st.

(** The sample an update stores. *)
Definition incoming (st : Compass) : arr3 Z :=
  if _calibrationUse st then _vCalibrated st else _vRaw st.

(** States whose members hold values of their declared types and whose
    window lies inside the ten-row history. *)
Record wf (st : Compass) : Prop := {
  wf_history : length (_vHistory st) = 10%nat;
  wf_steps : 0 <= _smoothSteps st <= 10;
  wf_scan : 0 <= _vScan st;
  wf_history_int : forall j i, in_int (hist_get (_vHistory st) j i);
  wf_raw_int : forall i, in_int (_vRaw st).[i];
  wf_calibrated_int : forall i, in_int (_vCalibrated st).[i]
}.

(** The rolling update as the specification words it: the value leaving
    the window is subtracted, the new one added, the cursor advanced
    modulo the window size. *)
Definition update_spec_total (st : Compass) (i : axis) : Z :=
  let cursor := _vScan st mod _smoothSteps st in
  (_vTotals st).[i] - hist_get (_vHistory st) (Z.to_nat cursor) i + (incoming st).[i].

Definition update_spec_cursor (st : Compass) : Z :=
  (_vScan st mod _smoothSteps st + 1) mod _smoothSteps st.


(** The bearing as the specification words it: [azimuth / 22.5] rounded to
    the nearest integer, halves up, modulo 16. *)
Definition bearing_spec (azimuth : Z) : Z :=
  let q := (inject_Z azimuth / (45 # 2))%Q in
  let r := (q - inject_Z (Qfloor q))%Q in
  (if Qle_bool (1 # 2) r then Qceiling q else Qfloor q) mod 16.

(** The calibration as the specification words it, on unbounded integers. *)
Definition cal_offset (b : Z * Z) : Z := (fst b + snd b) ÷ 2.
Definition cal_delta (b : Z * Z) : Z := (snd b - fst b) ÷ 2.
Definition cal_avg_delta (cal : arr3 (Z * Z)) : Z :=
  (cal_delta cal.[AxX] + cal_delta cal.[AxY] + cal_delta cal.[AxZ]) ÷ 3.
Definition cal_scale (cal : arr3 (Z * Z)) (i : axis) : F32.float :=
  F32.div (F32.of_Z (cal_avg_delta cal)) (F32.of_Z (cal_delta cal.[i])).
Definition calibrated_spec (cal : arr3 (Z * Z)) (raw : arr3 Z) (i : axis) : option Z :=
  F32.trunc (F32.mul (F32.of_Z (raw.[i] - cal_offset cal.[i])) (cal_scale cal i)).

(** No [int] computation of [_applyCalibration] overflows. *)
Record calibration_fits (cal : arr3 (Z * Z)) (raw : arr3 Z) : Prop := {
  fits_sum : forall i, in_int (fst cal.[i] + snd cal.[i]);
  fits_diff : forall i, in_int (snd cal.[i] - fst cal.[i]);
  fits_delta2 : in_int (cal_delta cal.[AxX] + cal_delta cal.[AxY]);
  fits_delta3 : in_int (cal_delta cal.[AxX] + cal_delta cal.[AxY] + cal_delta cal.[AxZ]);
  fits_centred : forall i, in_int (raw.[i] - cal_offset cal.[i])
}.

(** The running sum after the guarded subtraction of the value that
    leaves the window: [if (total != 0) total = total - leaving;]. *)
Definition after_eviction (total leaving : Z) : Z :=
  if total =? 0 then total else to_long (total - leaving).

(** The value [_smoothing] stores into [_vSmooth[i]], given the history
    and the running sum of axis [i] once the new sample is in. *)
Definition smooth_value (adv : bool) (steps : Z) (h : list (arr3 Z)) (t : Z)
    (i : axis) : Z :=
  if adv then
    let max := scan_max h i (Z.to_nat (steps - 1)) in
    let min := scan_min h i (Z.to_nat (steps - 1)) in
    to_int (to_long (t - to_int (hist_get h max i + hist_get h min i)) ÷ (steps - 2))
  else to_int (t ÷ steps).

(** The state one iteration of the axis loop leaves behind. *)
Definition after_axis (i : axis) (st : Compass) : Compass :=
  let c := Z.to_nat (_vScan st) in
  let h := hist_set (_vHistory st) c i (incoming st).[i] in
  let t := to_long (after_eviction (_vTotals st).[i] (hist_get (_vHistory st) c i)
                    + (incoming st).[i]) in
  with_vSmooth
    (set3 (_vSmooth st) i (smooth_value (_smoothAdvanced st) (_smoothSteps st) h t i))
    (with_vTotals (set3 (_vTotals st) i t) (with_vHistory h st)).

(** The divisions of [_smoothing] have a nonzero divisor. *)
Definition smoothing_defined (st : Compass) : Prop :=
  if _smoothAdvanced st then _smoothSteps st <> 2 else _smoothSteps st <> 0.

(** The first statement of [_smoothing]: the cursor is reset when it has
    run past the window. *)
Definition reset_cursor (st : Compass) : Compass :=
  if _smoothSteps st - 1 <? _vScan st then with_vScan 0 st else st.

(** The state a whole update leaves behind. *)
Definition after_smoothing (st : Compass) : Compass :=
  let s := after_axis AxZ (after_axis AxY (after_axis AxX (reset_cursor st))) in
  with_vScan (to_int (_vScan s + 1)) s.

(** A decision procedure for [wf]. *)
Definition in_int3 (v : arr3 Z) : bool :=
  in_intb v.[AxX] && in_intb v.[AxY] && in_intb v.[AxZ].

Definition wfb (st : Compass) : bool :=
  Nat.eqb (length (_vHistory st)) 10
  && (0 <=? _smoothSteps st) && (_smoothSteps st <=? 10)
  && (0 <=? _vScan st)
  && forallb in_int3 (_vHistory st)
  && in_int3 (_vRaw st) && in_int3 (_vCalibrated st).

(** The locals of [_applyCalibration], in the [int] arithmetic of the
    source. *)
Definition int_offset (b : Z * Z) : Z := to_int (fst b + snd b) ÷ 2.
Definition int_delta (b : Z * Z) : Z := to_int (snd b - fst b) ÷ 2.
Definition int_avg_delta (cal : arr3 (Z * Z)) : Z :=
  to_int (to_int (int_delta cal.[AxX] + int_delta cal.[AxY]) + int_delta cal.[AxZ]) ÷ 3.
Definition float_scale (cal : arr3 (Z * Z)) (i : axis) : F32.float :=
  F32.div (F32.of_Z (int_avg_delta cal)) (F32.of_Z (int_delta cal.[i])).

(** Integers [lo, lo + 1, ..., lo + n - 1]. *)
Fixpoint Zrange (lo : Z) (n : nat) : list Z :=
  match n with
  | O => []
  | S n => lo :: Zrange (lo + 1) n
  end.

(** ** The rest of [read]

    What [read] does with a sample once its six bytes are in: store it,
    calibrate if enabled, smooth if enabled. *)
Definition refresh (v : arr3 Z) (st : Compass) : option Compass :=
  let st := with_vRaw v st in
  st ← (if _calibrationUse st then _applyCalibration st else Some st);
  if _smoothUse st then _smoothing st else Some st.

(** The sample that the bytes in the receive buffer decode to; [Wire.read]
    answers -1 once the buffer is empty. *)
Definition decode (b : list Z) : arr3 Z :=
  Arr3 (reassemble (nth 0 b (-1)) (nth 1 b (-1)))
       (reassemble (nth 2 b (-1)) (nth 3 b (-1)))
       (reassemble (nth 4 b (-1)) (nth 5 b (-1))).


(** The calls one successful [read] makes on the bus. *)
Definition read_calls (addr : Z) : list bus_call :=
  [CallBeginTransmission addr; CallWrite 0; CallEndTransmission;
   CallRequestFrom addr 6;
   CallRead; CallRead; CallRead; CallRead; CallRead; CallRead].

(** The calls of [init]. *)
Definition init_calls (addr : Z) : list bus_call :=
  [CallBegin;
   CallBeginTransmission addr; CallWrite 11; CallWrite 1; CallEndTransmission;
   CallBeginTransmission addr; CallWrite 9; CallWrite 29; CallEndTransmission].

(** Values of a 16-bit sample, componentwise. *)
Definition int16_sample (v : arr3 Z) : Prop :=
  forall i, -32768 <= v.[i] <= 32767.



(** ** The calibration sketch ([examples/calibration/calibration.ino]) *)

Module CalibrationSketch.

Inductive serial_out : Type :=
| Println (s : string)
| Print (s : string)
| PrintInt (n : Z)
| PrintlnEmpty.

Record state : Type := MkState {
  compass : Compass;
  calibrationData : arr3 (Z * Z);   (* int [3][2] *)
  changed : bool;
  done : bool;
  t : Z;                            (* int *)
  c : Z;                            (* int *)
  serial : list serial_out          (* what has been printed, oldest first *)
}.

(** The globals at start-up: file-scope variables are zeroed. *)
Definition start : state :=
  MkState fresh (Arr3 (0, 0) (0, 0) (0, 0)) false false 0 0 [].

(** [if (v < data[0]) { data[0] = v; changed = true; }
     if (v > data[1]) { data[1] = v; changed = true; }] *)
Definition track (v : Z) (p : (Z * Z) * bool) : (Z * Z) * bool :=
  let '(b, ch) := p in
  let '(b, ch) := if v <? fst b then ((v, snd b), true) else (b, ch) in
  if v >? snd b then ((fst b, v), true) else (b, ch).

(** The numbers printed, in order. *)
Fixpoint printed_ints (out : list serial_out) : list Z :=
  match out with
  | [] => []
  | PrintInt n :: out => n :: printed_ints out
  | _ :: out => printed_ints out
  end.

Section Loop.

Context {W : Type} `{TwoWire W}.

Definition setup (sk : state) (w : W) : state * W :=
  let w := init (compass sk) w in
  (MkState (compass sk) (calibrationData sk) (changed sk) (done sk) (t sk) (c sk)
     (serial sk ++
      [Println "This will provide calibration settings for your QMC5883L chip. When prompted, move the magnetometer in all directions until the calibration is complete.";
       Println "Calibration will begin in 5 seconds."]),
   w).

(** One pass of [loop]; [millis_c] and [millis_t] are what the two calls
    of [millis()] return. *)
Definition loop (millis_c millis_t : Z) (sk : state) (w : W) : option (state * W) :=
  p ← read (compass sk) w;
  let cmp := p.1 in
  let w := p.2 in
  let x := getX cmp in
  let y := getY cmp in
  let z := getZ cmp in
  let '(bx, ch) := track x ((calibrationData sk).[AxX], false) in
  let '(by_, ch) := track y ((calibrationData sk).[AxY], ch) in
  let '(bz, ch) := track z ((calibrationData sk).[AxZ], ch) in
  let announce := ch && negb (done sk) in
  let out := if announce
             then serial sk ++ [Println "CALIBRATING... Keep moving your sensor around."]
             else serial sk in
  let c := if announce then to_int millis_c else c sk in
  let t := to_int millis_t in
  if (to_int (t - c) >? 5000) && negb (done sk) then
    Some (MkState cmp (Arr3 bx by_ bz) ch true t c
            (out ++
             [Println "DONE. Copy the line below and paste it into your projects sketch.);";
              PrintlnEmpty;
              Print "compass.setCalibration(";
              PrintInt (fst bx); Print ", "; PrintInt (snd bx); Print ", ";
              PrintInt (fst by_); Print ", "; PrintInt (snd by_); Print ", ";
              PrintInt (fst bz); Print ", "; PrintInt (snd bz);
              Println ");"]),
          w)
  else Some (MkState cmp (Arr3 bx by_ bz) ch (done sk) t c out, w).

(** Consecutive passes, one per pair of clock readings. *)
Fixpoint loops (clock : list (Z * Z)) (sk : state) (w : W) : option (state * W) :=
  match clock with
  | [] => Some (sk, w)
  | (mc, mt) :: clock => p ← loop mc mt sk w; loops clock p.1 p.2
  end.

End Loop.

End CalibrationSketch.

(** * Lemmas on machine integers *)

Lemma swrap_small w x :
  0 < w -> - 2 ^ (w - 1) <= x < 2 ^ (w - 1) -> swrap w x = x.
Proof.
  intros Hw Hx. unfold swrap.
  assert (E : 2 ^ w = 2 * 2 ^ (w - 1)).
  { replace w with (Z.succ (w - 1)) at 1 by lia. apply Z.pow_succ_r. lia. }
  rewrite Z.mod_small; lia.
Qed.

Lemma to_int_small x : in_int x -> to_int x = x.
Proof. intros H. apply swrap_small; [reflexivity | exact H]. Qed.

Lemma to_long_small x : in_long x -> to_long x = x.
Proof. intros H. apply swrap_small; [reflexivity | exact H]. Qed.

Lemma to_int_range x : in_int (to_int x).
Proof.
  unfold in_int, to_int, swrap, int_bits.
  change (2 ^ (16 - 1)) with 32768. change (2 ^ 16) with 65536.
  pose proof (Z.mod_pos_bound (x + 32768) 65536 ltac:(lia)). lia.
Qed.

Lemma in_intb_spec x : in_intb x = true <-> in_int x.
Proof. unfold in_intb, in_int. rewrite andb_true_iff, Z.leb_le, Z.ltb_lt. tauto. Qed.

(** A byte-aligned value and a byte have no bit in common, so [|] adds. *)
Lemma lor_byte_aligned lo k :
  0 <= lo < 256 -> Z.lor lo (256 * k) = lo + 256 * k.
Proof.
  intros Hlo.
  assert (D : Z.land lo (256 * k) = 0).
  { apply Z.bits_inj'. intros n Hn. rewrite Z.land_spec, Z.bits_0.
    destruct (Z.lt_ge_cases n 8) as [Hlt | Hge].
    - replace (256 * k) with (k * 2 ^ 8) by lia.
      rewrite Z.mul_pow2_bits_low by lia. apply andb_false_r.
    - replace lo with (lo mod 2 ^ 8) by (apply Z.mod_small; simpl; lia).
      rewrite Z.mod_pow2_bits_high by lia. reflexivity. }
  rewrite <- Z.lxor_lor by exact D. symmetry. apply Z.add_nocarry_lxor. exact D.
Qed.

Lemma low_byte_eq v : low_byte v = v mod 256.
Proof. unfold low_byte. change 255 with (Z.ones 8). rewrite Z.land_ones by lia. reflexivity. Qed.

Lemma high_byte_eq v : high_byte v = (v / 256) mod 256.
Proof.
  unfold high_byte. change 255 with (Z.ones 8). rewrite Z.land_ones by lia.
  rewrite Z.shiftr_div_pow2 by lia. reflexivity.
Qed.

(** ** Claims *)

(** C6. For every signed 16-bit value [v], splitting [v] into its low and
    high bytes and reassembling them as [low | high << 8], read as a
    two's-complement 16-bit integer, gives [v] again; in particular at
    -32768, -1 and 32767. *)
Theorem reassemble_roundtrip (v : Z) :
  -32768 <= v <= 32767 ->
  reassemble (low_byte v) (high_byte v) = v.
Proof.
  intros Hv. unfold reassemble.
  rewrite low_byte_eq, high_byte_eq.
  set (lo := v mod 256). set (hi := (v / 256) mod 256).
  assert (Hlo : 0 <= lo < 256) by (apply Z.mod_pos_bound; lia).
  assert (Hhi : 0 <= hi < 256) by (apply Z.mod_pos_bound; lia).
  rewrite Z.shiftl_mul_pow2 by lia. change (2 ^ 8) with 256.
  assert (Hs : exists k, to_int (hi * 256) = 256 * k /\ (k = hi \/ k = hi - 256)).
  { unfold to_int, swrap, int_bits.
    change (2 ^ (16 - 1)) with 32768. change (2 ^ 16) with 65536.
    destruct (Z.lt_ge_cases hi 128).
    - exists hi. split; [| now left]. rewrite Z.mod_small; lia.
    - exists (hi - 256). split; [| now right].
      replace (hi * 256 + 32768) with (hi * 256 - 32768 + 1 * 65536) by lia.
      rewrite Z.mod_add by lia. rewrite Z.mod_small; lia. }
  destruct Hs as (k & -> & Hk).
  rewrite lor_byte_aligned by exact Hlo.
  assert (Hvd : v = 256 * (v / 256) + lo) by (apply Z.div_mod; lia).
  assert (Hq : v / 256 = hi \/ v / 256 = hi - 256).
  { subst hi. destruct (Z.lt_ge_cases v 0).
    - right. replace (v / 256) with (v / 256 + 256 + (-1) * 256) at 2 by lia.
      rewrite Z.mod_add by lia. rewrite Z.mod_small; lia.
    - left. rewrite Z.mod_small; lia. }
  assert (E16 : to_int16 (lo + 256 * k) = v).
  { unfold to_int16, swrap.
    change (2 ^ (16 - 1)) with 32768. change (2 ^ 16) with 65536.
    destruct Hk as [-> | ->], Hq as [Hq | Hq].
    - rewrite Z.mod_small; lia.
    - replace (lo + 256 * hi + 32768) with (v + 32768 + 1 * 65536) by lia.
      rewrite Z.mod_add by lia. rewrite Z.mod_small; lia.
    - replace (lo + 256 * (hi - 256) + 32768) with (v + 32768 + (-1) * 65536) by lia.
      rewrite Z.mod_add by lia. rewrite Z.mod_small; lia.
    - rewrite Z.mod_small; lia. }
  rewrite E16. apply to_int_small. unfold in_int, int_bits.
  change (2 ^ (16 - 1)) with 32768. lia.
Qed.

Lemma reassemble_roundtrip_witness :
  reassemble (low_byte (-32768)) (high_byte (-32768)) = -32768 /\
  reassemble (low_byte (-1)) (high_byte (-1)) = -1 /\
  reassemble (low_byte 32767) (high_byte 32767) = 32767.
Proof.
  split; [| split]; apply reassemble_roundtrip; lia.
Defined.

(** * Exhaustive checks over integer ranges *)

Lemma Zrange_forallb (P : Z -> bool) (n : nat) :
  forall lo, forallb P (Zrange lo n) = true ->
  forall z, lo <= z < lo + Z.of_nat n -> P z = true.
Proof.
  induction n as [| n IH]; intros lo Hall z Hz.
  - simpl in Hz. lia.
  - simpl in Hall. apply andb_true_iff in Hall as [Hlo Hrest].
    destruct (Z.eq_dec z lo) as [-> | Hne]; [exact Hlo |].
    apply (IH (lo + 1) Hrest). lia.
Qed.

(** * The bearing *)

(** On [0, 359] the stored quotient is the integer part of
    [azimuth / 22.5]. *)
Lemma getBearing_trunc (azimuth : Z) :
  0 <= azimuth <= 359 -> getBearing azimuth = Some (2 * azimuth / 45).
Proof.
  intros Haz.
  pose (check := fun az =>
    match getBearing az with Some b => b =? 2 * az / 45 | None => false end).
  assert (Hall : forallb check (Zrange 0 360) = true) by (vm_compute; reflexivity).
  pose proof (Zrange_forallb check 360 0 Hall azimuth ltac:(lia)) as Hc.
  unfold check in Hc. clear Hall.
  destruct (getBearing azimuth) as [b |]; [| discriminate Hc].
  apply Z.eqb_eq in Hc. now subst b.
Qed.

Lemma getBearing_floor_or_ceiling (azimuth : Z) :
  0 <= azimuth <= 359 ->
  let q := (inject_Z azimuth / (45 # 2))%Q in
  2 * azimuth / 45 = Qfloor q \/ 2 * azimuth / 45 = Qceiling q.
Proof.
  intros Haz q. left. subst q.
  pose (check := fun az => 2 * az / 45 =? Qfloor (inject_Z az / (45 # 2))%Q).
  assert (Hall : forallb check (Zrange 0 360) = true) by (vm_compute; reflexivity).
  pose proof (Zrange_forallb check 360 0 Hall azimuth ltac:(lia)) as Hc.
  now apply Z.eqb_eq in Hc.
Qed.

(** C1 (corrected). For every azimuth in [0, 359], [getBearing] returns an
    integer in 0..15 that is the floor or the ceiling of [azimuth / 22.5];
    no reduction modulo 16 takes place, so 359 gives 15 and not 0; and
    [getBearing 11 = 0]. *)
Theorem getBearing_sector :
  (forall azimuth, 0 <= azimuth <= 359 ->
     exists b, getBearing azimuth = Some b /\ 0 <= b <= 15 /\
       let q := (inject_Z azimuth / (45 # 2))%Q in
       (b = Qfloor q \/ b = Qceiling q)) /\
  getBearing 11 = Some 0 /\
  getBearing 359 = Some 15.
Proof.
  split; [| split; apply getBearing_trunc; lia].
  intros azimuth Haz. exists (2 * azimuth / 45).
  split; [now apply getBearing_trunc |].
  split; [| now apply getBearing_floor_or_ceiling].
  split; [apply Z.div_pos; lia |].
  apply Z.lt_succ_r. apply Z.div_lt_upper_bound; lia.
Qed.

Lemma getBearing_sector_witness :
  0 <= 100 <= 359 /\
  exists b, getBearing 100 = Some b /\ 0 <= b <= 15 /\
    let q := (inject_Z 100 / (45 # 2))%Q in (b = Qfloor q \/ b = Qceiling q).
Proof.
  split; [lia |]. apply (proj1 getBearing_sector 100). lia.
Defined.

(** The claim as worded fails at 12 (the code gives 0, rounding gives 1)
    and at 359 (the code gives 15, rounding modulo 16 gives 0). *)
Lemma getBearing_not_rounded :
  getBearing 12 = Some 0 /\ bearing_spec 12 = 1 /\
  getBearing 359 = Some 15 /\ bearing_spec 359 = 0.
Proof. repeat split; vm_compute; reflexivity. Qed.

(** From 360 on (and as long as the quotient still fits a [byte]) the
    bearing is 16 or more and the table has no such row. *)
Lemma getBearing_beyond_table (azimuth : Z) :
  360 <= azimuth <= 5759 ->
  exists b, getBearing azimuth = Some b /\ 16 <= b /\ getDirection azimuth = None.
Proof.
  intros Haz.
  pose (check := fun az =>
    match getBearing az, getDirection az with
    | Some b, None => 16 <=? b
    | _, _ => false
    end).
  assert (Hall : forallb check (Zrange 360 (Z.to_nat 5400)) = true)
    by (vm_compute; reflexivity).
  pose proof (Zrange_forallb check _ 360 Hall azimuth ltac:(lia)) as Hc.
  unfold check in Hc. clear Hall.
  destruct (getBearing azimuth) as [b |]; [| discriminate Hc].
  destruct (getDirection azimuth); [discriminate Hc |].
  exists b. apply Z.leb_le in Hc. now repeat split.
Qed.

(** C9. For every azimuth in [0, 359], [getBearing] is at most 15 and the
    lookup of [getDirection] in the 16-row table succeeds; for azimuth 360
    [getBearing] returns 16 and the lookup falls outside the table, as it
    does for the azimuths that follow: the lookup is safe only under the
    precondition azimuth <= 359. *)
Theorem getDirection_in_bounds :
  (forall azimuth, 0 <= azimuth <= 359 ->
     exists b row, getBearing azimuth = Some b /\ 0 <= b <= 15 /\
       _bearings !! Z.to_nat b = Some row /\ getDirection azimuth = Some row) /\
  length _bearings = 16%nat /\
  getBearing 360 = Some 16 /\
  _bearings !! Z.to_nat 16 = None /\
  getDirection 360 = None /\
  (forall azimuth, 360 <= azimuth <= 5759 ->
     exists b, getBearing azimuth = Some b /\ 16 <= b /\
       getDirection azimuth = None).
Proof.
  split; [| split; [| split; [| split; [| split]]]];
    [| vm_compute; reflexivity .. | apply getBearing_beyond_table].
  intros azimuth Haz.
  assert (Hb : 0 <= 2 * azimuth / 45 <= 15).
  { split; [apply Z.div_pos; lia |].
    apply Z.lt_succ_r. apply Z.div_lt_upper_bound; lia. }
  destruct (lookup_lt_is_Some_2 _bearings (Z.to_nat (2 * azimuth / 45))) as [row Hrow].
  { change (length _bearings) with 16%nat. lia. }
  exists (2 * azimuth / 45), row.
  split; [now apply getBearing_trunc |]. split; [exact Hb |]. split; [exact Hrow |].
  unfold getDirection. rewrite getBearing_trunc by exact Haz.
  simpl. rewrite Hrow. simpl. now destruct row.
Qed.

Lemma getDirection_in_bounds_witness :
  0 <= 359 <= 359 /\
  exists b row, getBearing 359 = Some b /\ 0 <= b <= 15 /\
    _bearings !! Z.to_nat b = Some row /\ getDirection 359 = Some row.
Proof.
  split; [lia |]. apply (proj1 getDirection_in_bounds 359). lia.
Defined.

(** * The axis getters *)

(** C8. For every axis and every driver state, the getter returns the
    smoothed value when smoothing is enabled, otherwise the calibrated
    value when calibration is enabled, otherwise the raw value; smoothing
    wins wherever both are enabled.  [getX], [getY] and [getZ] are the
    getter at indices 0, 1 and 2. *)
Theorem get_precedence (st : Compass) (i : axis) :
  (_smoothUse st = true -> _get st i = (_vSmooth st).[i]) /\
  (_smoothUse st = false -> _calibrationUse st = true ->
     _get st i = (_vCalibrated st).[i]) /\
  (_smoothUse st = false -> _calibrationUse st = false ->
     _get st i = (_vRaw st).[i]) /\
  (_smoothUse st = true -> _calibrationUse st = true ->
     _get st i = (_vSmooth st).[i]) /\
  (getX st = _get st AxX /\ axis_index AxX = 0) /\
  (getY st = _get st AxY /\ axis_index AxY = 1) /\
  (getZ st = _get st AxZ /\ axis_index AxZ = 2).
Proof.
  unfold _get.
  repeat split; try (intros Hs; rewrite Hs; try reflexivity; intros Hc; now rewrite Hc).
Qed.

Lemma get_precedence_witness :
  let st := with_vSmooth (Arr3 1 2 3)
              (with_vCalibrated (Arr3 4 5 6)
                 (with_vRaw (Arr3 7 8 9)
                    (setSmoothing 5 false
                       (setCalibration (-100) 100 (-100) 100 (-100) 100 fresh)))) in
  _smoothUse st = true /\ _calibrationUse st = true /\ _get st AxY = 2.
Proof.
  intros st. split; [reflexivity |]. split; [reflexivity |].
  exact (proj1 (get_precedence st AxY) eq_refl).
Defined.

(** * Acquisition *)

(** C3. If the register-pointer write of [read] ends with a nonzero bus
    status, [read] makes no further bus call (no burst read), reports no
    error, and returns the driver state it was given: raw, calibrated and
    smoothed values, history, running sums and cursor are all unchanged. *)
Theorem read_bus_failure {W : Type} `{TwoWire W} (st : Compass) (w : W) :
  let w1 := Wire_write 0 (Wire_beginTransmission (_ADDR st) w) in
  (Wire_endTransmission w1).1 <> 0 ->
  read st w = Some (st, (Wire_endTransmission w1).2).
Proof.
  intros w1 Herr. unfold read. fold w1.
  destruct (Wire_endTransmission w1) as [err w2]. simpl in *.
  apply Z.eqb_neq in Herr. now rewrite Herr.
Qed.

Lemma read_bus_failure_witness :
  let st := with_vRaw (Arr3 7 8 9)
              (setSmoothing 5 true
                 (setCalibration (-100) 100 (-100) 100 (-100) 100 fresh)) in
  let w := MkBus 2 [1; 2; 3; 4; 5; 6] [] [] in
  (Wire_endTransmission (Wire_write 0 (Wire_beginTransmission (_ADDR st) w))).1 <> 0 /\
  read st w =
    Some (st, MkBus 2 [1; 2; 3; 4; 5; 6] []
                [CallBeginTransmission 13; CallWrite 0; CallEndTransmission]).
Proof.
  intros st w. split; [discriminate |].
  refine (eq_trans (read_bus_failure st w _) _); [discriminate | reflexivity].
Defined.

(** * Smoothing: the worked example *)

(** C7. With basic smoothing at window size 5 on a fresh driver, reading
    the samples 10, 20, 30, 40, 50 on an axis leaves the smoothed value 30
    on that axis, and a sixth sample of 60, which replaces the 10, leaves
    40. *)
Theorem smoothing_basic_window5 (i : axis) :
  (fun st => _get st i) <$>
    acquire (sample_on i <$> [10; 20; 30; 40; 50]) (setSmoothing 5 false fresh)
    = Some 30 /\
  (fun st => _get st i) <$>
    acquire (sample_on i <$> [10; 20; 30; 40; 50; 60]) (setSmoothing 5 false fresh)
    = Some 40 /\
  (fun st => window st i) <$>
    acquire (sample_on i <$> [10; 20; 30; 40; 50; 60]) (setSmoothing 5 false fresh)
    = Some [60; 20; 30; 40; 50].
Proof.
  destruct i; repeat split; vm_compute; reflexivity.
Qed.

(** * The history array *)

Lemma length_hist_set h j i v : length (hist_set h j i v) = length h.
Proof. unfold hist_set. destruct (h !! j); [apply length_insert | reflexivity]. Qed.

Lemma get3_set3_eq {A} (v : arr3 A) i x : (set3 v i x).[i] = x.
Proof. now destruct i. Qed.

Lemma get3_set3_ne {A} (v : arr3 A) i i' x : i <> i' -> (set3 v i x).[i'] = v.[i'].
Proof. destruct i, i'; intros Hne; try reflexivity; now destruct Hne. Qed.

Lemma hist_get_set_eq h j i v :
  (j < length h)%nat -> hist_get (hist_set h j i v) j i = v.
Proof.
  intros Hj. unfold hist_get, hist_set.
  destruct (lookup_lt_is_Some_2 h j Hj) as [row Hrow]. rewrite Hrow.
  rewrite list_lookup_insert_eq by exact Hj. apply get3_set3_eq.
Qed.

Lemma hist_get_set_axis h j i v j' i' :
  i <> i' -> hist_get (hist_set h j i v) j' i' = hist_get h j' i'.
Proof.
  intros Hne. unfold hist_get, hist_set.
  destruct (h !! j) as [row |] eqn:Hrow; [| reflexivity].
  destruct (decide (j = j')) as [<- | Hj].
  - rewrite list_lookup_insert_eq by (eapply lookup_lt_Some; exact Hrow).
    rewrite Hrow. now apply get3_set3_ne.
  - now rewrite list_lookup_insert_ne.
Qed.


(** Writing the three cells of a row is writing the row. *)
Lemma hist_set_row h j (v : arr3 Z) :
  (j < length h)%nat ->
  hist_set (hist_set (hist_set h j AxX v.[AxX]) j AxY v.[AxY]) j AxZ v.[AxZ]
  = <[j := v]> h.
Proof.
  intros Hj. destruct (lookup_lt_is_Some_2 h j Hj) as [row Hrow].
  unfold hist_set at 3. rewrite Hrow.
  unfold hist_set at 2. rewrite list_lookup_insert_eq by exact Hj.
  unfold hist_set. rewrite list_lookup_insert_eq by (rewrite length_insert; exact Hj).
  rewrite !list_insert_insert_eq. now destruct v, row.
Qed.

Lemma hist_get_insert_eq h j (v : arr3 Z) i :
  (j < length h)%nat -> hist_get (<[j := v]> h) j i = v.[i].
Proof. intros Hj. unfold hist_get. now rewrite list_lookup_insert_eq. Qed.

Lemma hist_get_insert_ne h j (v : arr3 Z) j' i :
  j <> j' -> hist_get (<[j := v]> h) j' i = hist_get h j' i.
Proof. intros Hj. unfold hist_get. now rewrite list_lookup_insert_ne. Qed.

(** * The scans for the extreme values *)

Lemma scan_max_S h i n :
  scan_max h i (S n) =
  if hist_get h n i >? hist_get h (scan_max h i n) i then n else scan_max h i n.
Proof. unfold scan_max. rewrite seq_S, foldl_app. reflexivity. Qed.

Lemma scan_min_S h i n :
  scan_min h i (S n) =
  if hist_get h n i <? hist_get h (scan_min h i n) i then n else scan_min h i n.
Proof. unfold scan_min. rewrite seq_S, foldl_app. reflexivity. Qed.

Lemma scan_max_bound h i n : (scan_max h i n <= pred n)%nat.
Proof.
  induction n as [| n IH]; [reflexivity |].
  rewrite scan_max_S. destruct (_ >? _); simpl; lia.
Qed.

Lemma scan_min_bound h i n : (scan_min h i n <= pred n)%nat.
Proof.
  induction n as [| n IH]; [reflexivity |].
  rewrite scan_min_S. destruct (_ <? _); simpl; lia.
Qed.



(** The scans read column [i] of the slots below [n] and nothing else. *)
Lemma scan_max_ext h1 h2 i n :
  (forall j, (j < n)%nat -> hist_get h1 j i = hist_get h2 j i) ->
  scan_max h1 i n = scan_max h2 i n.
Proof.
  induction n as [| n IH]; [reflexivity |]. intros Heq.
  rewrite !scan_max_S, <- IH by (intros j Hj; apply Heq; lia).
  pose proof (scan_max_bound h1 i n).
  now rewrite !Heq by lia.
Qed.

Lemma scan_min_ext h1 h2 i n :
  (forall j, (j < n)%nat -> hist_get h1 j i = hist_get h2 j i) ->
  scan_min h1 i n = scan_min h2 i n.
Proof.
  induction n as [| n IH]; [reflexivity |]. intros Heq.
  rewrite !scan_min_S, <- IH by (intros j Hj; apply Heq; lia).
  pose proof (scan_min_bound h1 i n).
  now rewrite !Heq by lia.
Qed.

(** * Sums over the window *)

Lemma Zsum_insert (l : list Z) j x y :
  l !! j = Some x -> Zsum (<[j := y]> l) = Zsum l - x + y.
Proof.
  revert j. induction l as [| a l IH]; intros [| j] Hj; try discriminate.
  - injection Hj as ->. simpl. lia.
  - simpl in *. rewrite (IH j Hj). lia.
Qed.

Lemma Zsum_bound (l : list Z) B :
  Forall (fun x => - B <= x <= B) l ->
  - (Z.of_nat (length l) * B) <= Zsum l <= Z.of_nat (length l) * B.
Proof.
  induction 1 as [| x l Hx _ IH]; simpl length; simpl Zsum; [lia |].
  rewrite Nat2Z.inj_succ. lia.
Qed.

Lemma window_lookup st i j x :
  window st i !! j = Some x -> x = hist_get (_vHistory st) j i.
Proof.
  unfold window, hist_get. rewrite list_lookup_fmap, lookup_take.
  case_decide; [| discriminate].
  destruct (_vHistory st !! j); simpl; congruence.
Qed.

Lemma window_sum_bound st i :
  wf st -> - 327680 <= window_sum st i <= 327680.
Proof.
  intros Hwf. unfold window_sum.
  assert (Hall : Forall (fun x => - 32768 <= x <= 32768) (window st i)).
  { apply Forall_lookup. intros j x Hx. apply window_lookup in Hx as ->.
    pose proof (wf_history_int st Hwf j i) as Hr. unfold in_int, int_bits in Hr.
    change (2 ^ (16 - 1)) with 32768 in Hr. lia. }
  apply (Zsum_bound _ 32768) in Hall.
  assert (Hlen : (length (window st i) <= 10)%nat).
  { unfold window. rewrite length_fmap, length_take, (wf_history st Hwf). lia. }
  lia.
Qed.

(** * One update of the smoothing filter *)

Lemma smooth_axis_after i st :
  (Z.to_nat (_vScan st) < length (_vHistory st))%nat ->
  smoothing_defined st ->
  smooth_axis i st = Some (after_axis i st).
Proof.
  intros Hc Hdef. unfold smooth_axis, after_axis, smoothing_defined in *.
  unfold smooth_value, incoming, after_eviction.
  rewrite hist_get_set_eq by exact Hc.
  destruct st as [su steps adv addr raw h scan tot sm cu cal cald].
  cbn [_smoothAdvanced _smoothSteps _vTotals _vHistory _vScan _vSmooth
       _calibrationUse _vCalibrated _vRaw with_vTotals with_vHistory with_vSmooth] in *.
  destruct cu, adv.
  - destruct (steps - 2 =? 0) eqn:E; [apply Z.eqb_eq in E; lia | reflexivity].
  - destruct (steps =? 0) eqn:E; [apply Z.eqb_eq in E; lia | reflexivity].
  - destruct (steps - 2 =? 0) eqn:E; [apply Z.eqb_eq in E; lia | reflexivity].
  - destruct (steps =? 0) eqn:E; [apply Z.eqb_eq in E; lia | reflexivity].
Qed.

Lemma slot_range st :
  0 <= _vScan st -> 1 <= _smoothSteps st -> 0 <= slot st <= _smoothSteps st - 1.
Proof.
  intros Hs Hn. unfold slot.
  destruct (_smoothSteps st - 1 <? _vScan st) eqn:E.
  - lia.
  - apply Z.ltb_ge in E. lia.
Qed.

Lemma _vScan_reset_cursor st : _vScan (reset_cursor st) = slot st.
Proof. unfold reset_cursor, slot. now destruct (_ <? _). Qed.

Lemma _vHistory_after_axis i st :
  _vHistory (after_axis i st)
  = hist_set (_vHistory st) (Z.to_nat (_vScan st)) i (incoming st).[i].
Proof. reflexivity. Qed.

Lemma _vScan_after_axis i st : _vScan (after_axis i st) = _vScan st.
Proof. reflexivity. Qed.

Lemma _vTotals_after_axis i st :
  _vTotals (after_axis i st)
  = set3 (_vTotals st) i
      (to_long (after_eviction (_vTotals st).[i]
                  (hist_get (_vHistory st) (Z.to_nat (_vScan st)) i)
                + (incoming st).[i])).
Proof. reflexivity. Qed.

Lemma _vSmooth_after_axis i st :
  _vSmooth (after_axis i st)
  = set3 (_vSmooth st) i
      (smooth_value (_smoothAdvanced st) (_smoothSteps st)
         (_vHistory (after_axis i st)) (_vTotals (after_axis i st)).[i] i).
Proof. rewrite _vTotals_after_axis, get3_set3_eq. reflexivity. Qed.

Lemma incoming_after_axis i st : incoming (after_axis i st) = incoming st.
Proof. reflexivity. Qed.

Lemma config_after_axis i st :
  _smoothAdvanced (after_axis i st) = _smoothAdvanced st /\
  _smoothSteps (after_axis i st) = _smoothSteps st /\
  _smoothUse (after_axis i st) = _smoothUse st /\
  _calibrationUse (after_axis i st) = _calibrationUse st /\
  _vCalibration (after_axis i st) = _vCalibration st /\
  _vCalibrated (after_axis i st) = _vCalibrated st /\
  _vRaw (after_axis i st) = _vRaw st /\
  _ADDR (after_axis i st) = _ADDR st.
Proof. repeat split. Qed.

Lemma smoothing_defined_after_axis i st :
  smoothing_defined (after_axis i st) = smoothing_defined st.
Proof. reflexivity. Qed.

Lemma bind_Some {A B} (x : A) (f : A -> option B) : Some x ≫= f = f x.
Proof. reflexivity. Qed.

Lemma _smoothing_unfold st :
  _smoothing st =
  (s1 ← smooth_axis AxX (reset_cursor st);
   s2 ← smooth_axis AxY s1;
   s3 ← smooth_axis AxZ s2;
   Some (with_vScan (to_int (_vScan s3 + 1)) s3)).
Proof. reflexivity. Qed.

Lemma _smoothing_after st :
  wf st -> 1 <= _smoothSteps st -> smoothing_defined st ->
  _smoothing st = Some (after_smoothing st).
Proof.
  intros Hwf Hn Hdef.
  pose proof (slot_range st (wf_scan st Hwf) Hn) as Hslot.
  pose proof (wf_steps st Hwf) as Hsteps.
  pose proof (wf_history st Hwf) as Hlen.
  pose proof (_vScan_reset_cursor st) as Hscan.
  assert (Hh : _vHistory (reset_cursor st) = _vHistory st)
    by (unfold reset_cursor; now destruct (_ <? _)).
  assert (Hd : smoothing_defined (reset_cursor st))
    by (unfold reset_cursor; now destruct (_ <? _)).
  rewrite _smoothing_unfold.
  rewrite (smooth_axis_after AxX (reset_cursor st)); [| rewrite Hscan, Hh; lia | exact Hd].
  rewrite bind_Some.
  rewrite (smooth_axis_after AxY).
  2: { rewrite _vHistory_after_axis, _vScan_after_axis, length_hist_set, Hscan, Hh. lia. }
  2: { now rewrite smoothing_defined_after_axis. }
  rewrite bind_Some.
  rewrite (smooth_axis_after AxZ).
  2: { rewrite _vHistory_after_axis, _vScan_after_axis, length_hist_set.
       rewrite _vHistory_after_axis, _vScan_after_axis, length_hist_set, Hscan, Hh. lia. }
  2: { now rewrite !smoothing_defined_after_axis. }
  rewrite bind_Some.
  reflexivity.
Qed.

(** An iteration of the axis loop leaves the other two axes alone. *)
Lemma after_axis_other i i' s :
  i' <> i ->
  (forall j, hist_get (_vHistory (after_axis i' s)) j i = hist_get (_vHistory s) j i) /\
  (_vTotals (after_axis i' s)).[i] = (_vTotals s).[i] /\
  (_vSmooth (after_axis i' s)).[i] = (_vSmooth s).[i].
Proof.
  intros Hne. split; [| split].
  - intros j. rewrite _vHistory_after_axis. now apply hist_get_set_axis.
  - rewrite _vTotals_after_axis. now apply get3_set3_ne.
  - rewrite _vSmooth_after_axis. now apply get3_set3_ne.
Qed.

Lemma smooth_value_ext adv steps h1 h2 t i :
  (forall j, hist_get h1 j i = hist_get h2 j i) ->
  smooth_value adv steps h1 t i = smooth_value adv steps h2 t i.
Proof.
  intros Heq. unfold smooth_value. destruct adv; [| reflexivity].
  rewrite (scan_max_ext h1 h2), (scan_min_ext h1 h2) by (intros; apply Heq).
  now rewrite !Heq.
Qed.

Lemma after_axis_self i s :
  (_vTotals (after_axis i s)).[i]
  = to_long (after_eviction (_vTotals s).[i]
               (hist_get (_vHistory s) (Z.to_nat (_vScan s)) i)
             + (incoming s).[i]) /\
  (_vSmooth (after_axis i s)).[i]
  = smooth_value (_smoothAdvanced s) (_smoothSteps s)
      (_vHistory (after_axis i s)) (_vTotals (after_axis i s)).[i] i.
Proof.
  split.
  - rewrite _vTotals_after_axis. apply get3_set3_eq.
  - rewrite _vSmooth_after_axis. apply get3_set3_eq.
Qed.

(** The three iterations of the axis loop together. *)

Lemma three_axes_history s :
  (Z.to_nat (_vScan s) < length (_vHistory s))%nat ->
  _vHistory (after_axis AxZ (after_axis AxY (after_axis AxX s)))
  = <[Z.to_nat (_vScan s) := incoming s]> (_vHistory s).
Proof.
  intros Hc.
  rewrite (_vHistory_after_axis AxZ), (_vHistory_after_axis AxY),
    (_vHistory_after_axis AxX).
  rewrite (_vScan_after_axis AxY), (_vScan_after_axis AxX).
  rewrite (incoming_after_axis AxY), (incoming_after_axis AxX).
  now apply hist_set_row.
Qed.

Lemma three_axes_totals s i :
  (_vTotals (after_axis AxZ (after_axis AxY (after_axis AxX s)))).[i]
  = to_long (after_eviction (_vTotals s).[i]
               (hist_get (_vHistory s) (Z.to_nat (_vScan s)) i)
             + (incoming s).[i]).
Proof.
  destruct i.
  - rewrite (proj1 (proj2 (after_axis_other AxX AxZ _ ltac:(discriminate)))).
    rewrite (proj1 (proj2 (after_axis_other AxX AxY _ ltac:(discriminate)))).
    apply after_axis_self.
  - rewrite (proj1 (proj2 (after_axis_other AxY AxZ _ ltac:(discriminate)))).
    rewrite (proj1 (after_axis_self AxY _)).
    rewrite (proj1 (proj2 (after_axis_other AxY AxX _ ltac:(discriminate)))).
    rewrite (proj1 (after_axis_other AxY AxX _ ltac:(discriminate))).
    reflexivity.
  - rewrite (proj1 (after_axis_self AxZ _)).
    rewrite (proj1 (proj2 (after_axis_other AxZ AxY _ ltac:(discriminate)))).
    rewrite (proj1 (proj2 (after_axis_other AxZ AxX _ ltac:(discriminate)))).
    rewrite (proj1 (after_axis_other AxZ AxY _ ltac:(discriminate))).
    rewrite (proj1 (after_axis_other AxZ AxX _ ltac:(discriminate))).
    reflexivity.
Qed.

Lemma three_axes_smooth s i :
  (_vSmooth (after_axis AxZ (after_axis AxY (after_axis AxX s)))).[i]
  = smooth_value (_smoothAdvanced s) (_smoothSteps s) (_vHistory (after_axis AxZ (after_axis AxY (after_axis AxX s)))) (_vTotals (after_axis AxZ (after_axis AxY (after_axis AxX s)))).[i] i.
Proof.
  destruct i.
  - rewrite (proj2 (proj2 (after_axis_other AxX AxZ _ ltac:(discriminate)))).
    rewrite (proj2 (proj2 (after_axis_other AxX AxY _ ltac:(discriminate)))).
    rewrite (proj1 (proj2 (after_axis_other AxX AxZ _ ltac:(discriminate)))).
    rewrite (proj1 (proj2 (after_axis_other AxX AxY _ ltac:(discriminate)))).
    rewrite (proj2 (after_axis_self AxX s)).
    apply smooth_value_ext. intros j.
    rewrite (proj1 (after_axis_other AxX AxZ _ ltac:(discriminate))).
    now rewrite (proj1 (after_axis_other AxX AxY _ ltac:(discriminate))).
  - rewrite (proj2 (proj2 (after_axis_other AxY AxZ _ ltac:(discriminate)))).
    rewrite (proj1 (proj2 (after_axis_other AxY AxZ _ ltac:(discriminate)))).
    rewrite (proj2 (after_axis_self AxY _)).
    rewrite (proj1 (config_after_axis AxX s)).
    rewrite (proj1 (proj2 (config_after_axis AxX s))).
    apply smooth_value_ext. intros j.
    now rewrite (proj1 (after_axis_other AxY AxZ _ ltac:(discriminate))).
  - rewrite (proj2 (after_axis_self AxZ _)).
    rewrite (proj1 (config_after_axis AxY _)), (proj1 (config_after_axis AxX s)).
    rewrite (proj1 (proj2 (config_after_axis AxY _))).
    rewrite (proj1 (proj2 (config_after_axis AxX s))).
    reflexivity.
Qed.


Lemma reset_cursor_fields st :
  _vHistory (reset_cursor st) = _vHistory st /\
  _vTotals (reset_cursor st) = _vTotals st /\
  _vSmooth (reset_cursor st) = _vSmooth st /\
  incoming (reset_cursor st) = incoming st /\
  _smoothAdvanced (reset_cursor st) = _smoothAdvanced st /\
  _smoothSteps (reset_cursor st) = _smoothSteps st.
Proof. unfold reset_cursor. destruct (_ <? _); repeat split. Qed.

Lemma with_vScan_fields c s :
  _vScan (with_vScan c s) = c /\
  _vHistory (with_vScan c s) = _vHistory s /\
  _vTotals (with_vScan c s) = _vTotals s /\
  _vSmooth (with_vScan c s) = _vSmooth s /\
  _smoothSteps (with_vScan c s) = _smoothSteps s.
Proof. repeat split. Qed.

Lemma after_smoothing_unfold st :
  after_smoothing st
  = with_vScan
      (to_int (_vScan (after_axis AxZ (after_axis AxY (after_axis AxX (reset_cursor st)))) + 1))
      (after_axis AxZ (after_axis AxY (after_axis AxX (reset_cursor st)))).
Proof. reflexivity. Qed.

(** What a whole update does to the cursor, the history, the running sums
    and the smoothed values. *)
Lemma after_smoothing_fields st :
  wf st -> 1 <= _smoothSteps st ->
  _vScan (after_smoothing st) = slot st + 1 /\
  _vHistory (after_smoothing st)
    = <[Z.to_nat (slot st) := incoming st]> (_vHistory st) /\
  _smoothSteps (after_smoothing st) = _smoothSteps st /\
  (forall i, (_vTotals (after_smoothing st)).[i]
     = to_long (after_eviction (_vTotals st).[i]
                  (hist_get (_vHistory st) (Z.to_nat (slot st)) i)
                + (incoming st).[i])) /\
  (forall i, (_vSmooth (after_smoothing st)).[i]
     = smooth_value (_smoothAdvanced st) (_smoothSteps st)
         (_vHistory (after_smoothing st)) (_vTotals (after_smoothing st)).[i] i).
Proof.
  intros Hwf Hn.
  pose proof (slot_range st (wf_scan st Hwf) Hn) as Hslot.
  pose proof (wf_steps st Hwf) as Hsteps.
  pose proof (wf_history st Hwf) as Hlen.
  destruct (reset_cursor_fields st) as (Hh & Ht & Hs & Hi & Ha & Hst).
  pose proof (_vScan_reset_cursor st) as Hscan.
  rewrite after_smoothing_unfold.
  remember (reset_cursor st) as s0 eqn:Es0.
  assert (Hc : (Z.to_nat (_vScan s0) < length (_vHistory s0))%nat)
    by (rewrite Hscan, Hh; lia).
  remember (after_axis AxZ (after_axis AxY (after_axis AxX s0))) as s3 eqn:Es3.
  assert (E5 : _vScan s3 = _vScan s0).
  { rewrite Es3. now rewrite !_vScan_after_axis. }
  assert (E6 : _smoothSteps s3 = _smoothSteps s0).
  { rewrite Es3.
    rewrite (proj1 (proj2 (config_after_axis AxZ _))).
    rewrite (proj1 (proj2 (config_after_axis AxY _))).
    apply (proj1 (proj2 (config_after_axis AxX _))). }
  destruct (with_vScan_fields (to_int (_vScan s3 + 1)) s3) as (F1 & F2 & F3 & F4 & F5).
  rewrite F1, F2, F3, F4, F5.
  split; [| split; [| split; [| split]]].
  - rewrite E5, Hscan. apply to_int_small.
    unfold in_int, int_bits. change (2 ^ (16 - 1)) with 32768. lia.
  - rewrite Es3, three_axes_history by exact Hc.
    now rewrite Hscan, Hi, Hh.
  - now rewrite E6.
  - intros i. rewrite Es3, three_axes_totals.
    now rewrite Hscan, Hi, Hh, Ht.
  - intros i. rewrite Es3, three_axes_smooth.
    now rewrite Ha, Hst.
Qed.

Lemma window_sum_update st st' (v : arr3 Z) i :
  wf st -> 1 <= _smoothSteps st ->
  _smoothSteps st' = _smoothSteps st ->
  _vHistory st' = <[Z.to_nat (slot st) := v]> (_vHistory st) ->
  window_sum st' i
  = window_sum st i - hist_get (_vHistory st) (Z.to_nat (slot st)) i + v.[i].
Proof.
  intros Hwf Hn Hsteps Hh.
  pose proof (slot_range st (wf_scan st Hwf) Hn) as Hslot.
  pose proof (wf_steps st Hwf) as Hst.
  pose proof (wf_history st Hwf) as Hlen.
  unfold window_sum, window. rewrite Hsteps, Hh.
  rewrite take_insert_lt by lia. rewrite list_fmap_insert.
  apply Zsum_insert.
  rewrite list_lookup_fmap, lookup_take_lt by lia.
  unfold hist_get.
  destruct (lookup_lt_is_Some_2 (_vHistory st) (Z.to_nat (slot st))) as [row Hrow];
    [lia |].
  now rewrite Hrow.
Qed.

Lemma after_smoothing_inputs st :
  _vRaw (after_smoothing st) = _vRaw st /\
  _vCalibrated (after_smoothing st) = _vCalibrated st.
Proof.
  unfold after_smoothing, reset_cursor.
  destruct (_smoothSteps st - 1 <? _vScan st); split; reflexivity.
Qed.

Lemma incoming_int st i : wf st -> in_int (incoming st).[i].
Proof.
  intros Hwf. unfold incoming. destruct (_calibrationUse st).
  - apply (wf_calibrated_int st Hwf).
  - apply (wf_raw_int st Hwf).
Qed.

(** Well-formed states stay well formed under an update. *)
Lemma after_smoothing_wf st :
  wf st -> 1 <= _smoothSteps st -> wf (after_smoothing st).
Proof.
  intros Hwf Hn.
  destruct (after_smoothing_fields st Hwf Hn) as (Hscan & Hh & Hsteps & _ & _).
  destruct (after_smoothing_inputs st) as [Hraw Hcal].
  pose proof (slot_range st (wf_scan st Hwf) Hn) as Hslot.
  split.
  - rewrite Hh, length_insert. apply (wf_history st Hwf).
  - rewrite Hsteps. apply (wf_steps st Hwf).
  - rewrite Hscan. lia.
  - intros j i. rewrite Hh.
    destruct (decide (Z.to_nat (slot st) = j)) as [<- | Hne].
    + rewrite hist_get_insert_eq.
      * now apply incoming_int.
      * rewrite (wf_history st Hwf). pose proof (wf_steps st Hwf). lia.
    + rewrite hist_get_insert_ne by exact Hne. apply (wf_history_int st Hwf).
  - intros i. rewrite Hraw. apply (wf_raw_int st Hwf).
  - intros i. rewrite Hcal. apply (wf_calibrated_int st Hwf).
Qed.

(** * Claims on the smoothing filter *)

(** One update on a well-formed state with window size N in 1..10, member
    by member: the cursor the update leaves, the history row it writes and
    the running sum of each axis as the source computes it.  The running
    sum is the sum of the window again whenever it was so before and the
    guard of the subtraction did not skip a nonzero value. *)
Lemma smoothing_update (st : Compass) :
  wf st -> 1 <= _smoothSteps st -> smoothing_defined st ->
  exists st', _smoothing st = Some st' /\
    _vScan st' = (if _smoothSteps st - 1 <? _vScan st then 0 else _vScan st) + 1 /\
    _vHistory st'
      = <[Z.to_nat (slot st) :=
            if _calibrationUse st then _vCalibrated st else _vRaw st]> (_vHistory st) /\
    forall i,
      let total := (_vTotals st).[i] in
      let leaving := hist_get (_vHistory st) (Z.to_nat (slot st)) i in
      (_vTotals st').[i]
        = to_long ((if total =? 0 then total else to_long (total - leaving))
                   + (if _calibrationUse st then _vCalibrated st else _vRaw st).[i]) /\
      (total = window_sum st i -> total <> 0 \/ leaving = 0 ->
       (_vTotals st').[i] = window_sum st' i).
Proof.
  intros Hwf Hn Hdef. exists (after_smoothing st).
  destruct (after_smoothing_fields st Hwf Hn) as (Hscan & Hh & Hsteps & Ht & _).
  split; [now apply _smoothing_after |].
  split; [exact Hscan |]. split; [exact Hh |].
  intros i total leaving. split; [apply Ht |].
  intros Hinv Hguard.
  rewrite (window_sum_update st _ (incoming st) i Hwf Hn Hsteps Hh).
  rewrite Ht. fold leaving. fold total. rewrite <- Hinv.
  pose proof (window_sum_bound st i Hwf) as Hb. rewrite <- Hinv in Hb.
  assert (Hl : -32768 <= leaving < 32768).
  { pose proof (wf_history_int st Hwf (Z.to_nat (slot st)) i) as Hr.
    unfold in_int, int_bits in Hr. change (2 ^ (16 - 1)) with 32768 in Hr. exact Hr. }
  assert (Hi : -32768 <= (incoming st).[i] < 32768).
  { unfold incoming. destruct (_calibrationUse st).
    - pose proof (wf_calibrated_int st Hwf i) as Hr.
      unfold in_int, int_bits in Hr. change (2 ^ (16 - 1)) with 32768 in Hr. exact Hr.
    - pose proof (wf_raw_int st Hwf i) as Hr.
      unfold in_int, int_bits in Hr. change (2 ^ (16 - 1)) with 32768 in Hr. exact Hr. }
  unfold after_eviction. destruct (total =? 0) eqn:E.
  - apply Z.eqb_eq in E. destruct Hguard as [Hne | Hz]; [contradiction |].
    rewrite to_long_small; [lia |].
    unfold in_long, long_bits. change (2 ^ (32 - 1)) with 2147483648. lia.
  - rewrite (to_long_small (total - leaving)).
    + rewrite to_long_small; [lia |].
      unfold in_long, long_bits. change (2 ^ (32 - 1)) with 2147483648. lia.
    + unfold in_long, long_bits. change (2 ^ (32 - 1)) with 2147483648. lia.
Qed.



Lemma wf_with_vRaw v st :
  (forall i, in_int v.[i]) -> wf st -> wf (with_vRaw v st).
Proof. intros Hv [H1 H2 H3 H4 H5 H6]. now split. Qed.

Lemma in_int3_spec v : in_int3 v = true -> forall i, in_int v.[i].
Proof.
  unfold in_int3. rewrite !andb_true_iff, !in_intb_spec.
  intros [[Hx Hy] Hz] i. now destruct i.
Qed.

Lemma wfb_wf st : wfb st = true -> wf st.
Proof.
  unfold wfb. rewrite !andb_true_iff.
  intros [[[[[[Hl H0] H10] Hs] Hh] Hr] Hc].
  split.
  - now apply Nat.eqb_eq.
  - apply Z.leb_le in H0, H10. lia.
  - now apply Z.leb_le.
  - intros j i. unfold hist_get.
    destruct (_vHistory st !! j) as [row |] eqn:E.
    + apply in_int3_spec. rewrite forallb_forall in Hh. apply Hh.
      apply list_elem_of_In. eapply list_elem_of_lookup_2. exact E.
    + apply in_intb_spec. reflexivity.
  - now apply in_int3_spec.
  - now apply in_int3_spec.
Qed.

(** C2 (defect of the code). The rolling update is to subtract the value
    that leaves the window from the running sum on every call, so that the
    sum is the sum of the window and the basic result its mean, as the
    comment above [_smoothing] says (the total of all (n) readings is
    averaged).  The source skips the subtraction when the running sum is
    0.  On a fresh driver with window size 2 and the X samples 5, -5, 7:
    after two samples the sum is 0 over the window 5, -5; the third update
    ought to give 0 - 5 + 7 = 2, but leaves 7 over the window 7, -5, and
    [getX] returns 3 where the mean of the window is 1.  The excess stays:
    after the samples 9 and 11 the sum is 25 over the window 11, 9 and
    [getX] returns 12. *)
Theorem smoothing_sum_drifts :
  let run := fun samples =>
    acquire (sample_on AxX <$> samples) (setSmoothing 2 false fresh) in
  let view := fun st =>
    ((_vTotals st).[AxX], window st AxX, window_sum st AxX, getX st) in
  view <$> run [5; -5] = Some (0, [5; -5], 0, 0) /\
  (fun st => update_spec_total (with_vRaw (sample_on AxX 7) st) AxX) <$> run [5; -5]
    = Some 2 /\
  view <$> run [5; -5; 7] = Some (7, [7; -5], 2, 3) /\
  view <$> run [5; -5; 7; 9; 11] = Some (25, [11; 9], 20, 12).
Proof. repeat split; vm_compute; reflexivity. Qed.





(** * Calibration *)

Lemma _applyCalibration_unfold st :
  _applyCalibration st =
  (cx ← scale_axis (_vRaw st).[AxX] (int_offset (_vCalibration st).[AxX])
         (float_scale (_vCalibration st) AxX);
   cy ← scale_axis (_vRaw st).[AxY] (int_offset (_vCalibration st).[AxY])
         (float_scale (_vCalibration st) AxY);
   cz ← scale_axis (_vRaw st).[AxZ] (int_offset (_vCalibration st).[AxZ])
         (float_scale (_vCalibration st) AxZ);
   Some (with_vCalibrated (Arr3 cx cy cz) st)).
Proof.
  unfold _applyCalibration, float_scale, int_avg_delta, int_delta, int_offset.
  lazy zeta. reflexivity.
Qed.

Lemma in_int_quot x d : 1 <= d -> in_int x -> in_int (x ÷ d).
Proof.
  unfold in_int, int_bits. change (2 ^ (16 - 1)) with 32768. intros Hd Hx.
  pose proof (Z.quot_rem' x d) as Hq.
  pose proof (Z.rem_bound_abs x d ltac:(lia)) as Hr.
  destruct (Z.le_gt_cases 0 x).
  - pose proof (Z.quot_pos x d ltac:(lia) ltac:(lia)).
    pose proof (Z.rem_nonneg x d ltac:(lia) ltac:(lia)). nia.
  - pose proof (Z.quot_opp_l x d ltac:(lia)) as Ho.
    pose proof (Z.quot_pos (- x) d ltac:(lia) ltac:(lia)).
    pose proof (Z.rem_nonpos x d ltac:(lia) ltac:(lia)). nia.
Qed.

Section Fits.

Variables (cal : arr3 (Z * Z)) (raw : arr3 Z).
Hypothesis Hfits : calibration_fits cal raw.

Lemma int_offset_fits i : int_offset cal.[i] = cal_offset cal.[i].
Proof.
  unfold int_offset, cal_offset. now rewrite to_int_small by apply (fits_sum _ _ Hfits).
Qed.

Lemma int_delta_fits i : int_delta cal.[i] = cal_delta cal.[i].
Proof.
  unfold int_delta, cal_delta. now rewrite to_int_small by apply (fits_diff _ _ Hfits).
Qed.

Lemma int_avg_delta_fits : int_avg_delta cal = cal_avg_delta cal.
Proof.
  unfold int_avg_delta, cal_avg_delta. rewrite !int_delta_fits.
  rewrite (to_int_small (cal_delta cal.[AxX] + cal_delta cal.[AxY]))
    by apply (fits_delta2 _ _ Hfits).
  now rewrite to_int_small by apply (fits_delta3 _ _ Hfits).
Qed.

Lemma float_scale_fits i : float_scale cal i = cal_scale cal i.
Proof. unfold float_scale, cal_scale. now rewrite int_avg_delta_fits, int_delta_fits. Qed.

Lemma scale_axis_fits i v :
  calibrated_spec cal raw i = Some v -> in_int v ->
  scale_axis raw.[i] (int_offset cal.[i]) (float_scale cal i) = Some v.
Proof.
  intros Hspec Hv. unfold scale_axis, F32.to_int.
  rewrite int_offset_fits, float_scale_fits.
  rewrite to_int_small by apply (fits_centred _ _ Hfits).
  unfold calibrated_spec in Hspec. rewrite Hspec, bind_Some.
  apply in_intb_spec in Hv. now rewrite Hv.
Qed.

End Fits.

(** With both bounds at distance 100 from zero the scale is exactly one. *)
Lemma float_scale_symmetric i :
  float_scale (Arr3 (-100, 100) (-100, 100) (-100, 100)) i
  = S754_finite false 8388608 (-23).
Proof. destruct i; vm_compute; reflexivity. Qed.

(** Scaling by one gives back every [int]. *)
Lemma scale_axis_one (r : Z) :
  in_int r -> scale_axis r 0 (S754_finite false 8388608 (-23)) = Some r.
Proof.
  intros Hr.
  pose (check := fun r =>
    match scale_axis r 0 (S754_finite false 8388608 (-23)) with
    | Some v => v =? r
    | None => false
    end).
  assert (Hall : forallb check (Zrange (-32768) (Z.to_nat 65536)) = true)
    by (vm_compute; reflexivity).
  assert (Hin : -32768 <= r < -32768 + Z.of_nat (Z.to_nat 65536)).
  { unfold in_int, int_bits in Hr. change (2 ^ (16 - 1)) with 32768 in Hr. lia. }
  pose proof (Zrange_forallb check _ _ Hall r Hin) as Hc.
  unfold check in Hc. clear Hall.
  destruct (scale_axis r 0 (S754_finite false 8388608 (-23))) as [v |];
    [| discriminate Hc].
  apply Z.eqb_eq in Hc. now subst v.
Qed.

(** An [int] converts to a zero or to a finite float. *)
Lemma of_Z_int (z : Z) :
  in_int z ->
  (z = 0 /\ F32.of_Z z = S754_zero false) \/
  (z <> 0 /\ exists s m e, F32.of_Z z = S754_finite s m e).
Proof.
  intros Hz.
  pose (check := fun z =>
    match F32.of_Z z with
    | S754_zero false => z =? 0
    | S754_finite _ _ _ => negb (z =? 0)
    | _ => false
    end).
  assert (Hall : forallb check (Zrange (-32768) (Z.to_nat 65536)) = true)
    by (vm_compute; reflexivity).
  assert (Hin : -32768 <= z < -32768 + Z.of_nat (Z.to_nat 65536)).
  { unfold in_int, int_bits in Hz. change (2 ^ (16 - 1)) with 32768 in Hz. lia. }
  pose proof (Zrange_forallb check _ _ Hall z Hin) as Hc.
  unfold check in Hc. clear Hall.
  destruct (F32.of_Z z) as [[|] | | | s m e]; try discriminate Hc.
  - left. apply Z.eqb_eq in Hc. now split.
  - right. apply negb_true_iff, Z.eqb_neq in Hc. split; [exact Hc |]. now exists s, m, e.
Qed.

(** A zero delta makes the scale infinite or not a number, and the scaled
    value has no integer to be converted to. *)
Lemma scale_axis_zero_delta (c avg : Z) :
  in_int avg ->
  F32.to_int (F32.mul (F32.of_Z (to_int c)) (F32.div (F32.of_Z avg) (F32.of_Z 0))) = None.
Proof.
  intros Havg.
  change (F32.of_Z 0) with (S754_zero false).
  destruct (of_Z_int avg Havg) as [[_ ->] | [_ (s & m & e & ->)]];
    destruct (of_Z_int (to_int c) (to_int_range c)) as [[_ ->] | [_ (s' & m' & e' & ->)]];
    reflexivity.
Qed.

Lemma bind_None {A B} (f : A -> option B) : None ≫= f = None.
Proof. reflexivity. Qed.

Lemma arr3_eta {A} (v : arr3 A) : Arr3 v.[AxX] v.[AxY] v.[AxZ] = v.
Proof. now destruct v. Qed.

Lemma int_offset_symmetric i :
  int_offset (Arr3 (-100, 100) (-100, 100) (-100, 100)).[i] = 0.
Proof. destruct i; reflexivity. Qed.

Lemma in_int_avg_delta cal : in_int (int_avg_delta cal).
Proof. unfold int_avg_delta. apply in_int_quot; [lia | apply to_int_range]. Qed.

Lemma scale_axis_degenerate cal raw i :
  int_delta cal.[i] = 0 ->
  scale_axis raw.[i] (int_offset cal.[i]) (float_scale cal i) = None.
Proof.
  intros Hd. unfold scale_axis, float_scale. rewrite Hd.
  apply scale_axis_zero_delta, in_int_avg_delta.
Qed.

(** C5 (corrected). Where no [int] computation overflows and
    [(raw - offset) * scale] is a finite value within the [int] range,
    [_applyCalibration] stores, on each axis, [(raw - offset) * scale]
    truncated to an integer, with offset = (min+max)/2, avg_delta =
    (max-min)/2 and avg_delta_all = (dx+dy+dz)/3 by integer division and
    scale = avg_delta_all / avg_delta by floating-point division.  An axis
    whose avg_delta is 0, which bounds with max - min = 1 already give,
    leaves the stored value undefined.  With bounds (-100, 100) on the
    three axes the calibrated value is the raw value, for every raw. *)
Theorem applyCalibration_scaling (st : Compass) :
  let cal := _vCalibration st in
  let raw := _vRaw st in
  (calibration_fits cal raw ->
   forall v : arr3 Z,
     (forall i, calibrated_spec cal raw i = Some v.[i] /\ in_int v.[i]) ->
     _applyCalibration st = Some (with_vCalibrated v st)) /\
  (calibration_fits cal raw ->
   forall i, cal_delta cal.[i] = 0 -> _applyCalibration st = None) /\
  (cal = Arr3 (-100, 100) (-100, 100) (-100, 100) ->
   (forall i, in_int raw.[i]) ->
   _applyCalibration st = Some (with_vCalibrated raw st)).
Proof.
  intros cal raw. split; [| split].
  - intros Hfits v Hv. rewrite _applyCalibration_unfold. fold cal. fold raw.
    rewrite (scale_axis_fits cal raw Hfits AxX v.[AxX]) by apply Hv.
    rewrite bind_Some.
    rewrite (scale_axis_fits cal raw Hfits AxY v.[AxY]) by apply Hv.
    rewrite bind_Some.
    rewrite (scale_axis_fits cal raw Hfits AxZ v.[AxZ]) by apply Hv.
    rewrite bind_Some. now rewrite arr3_eta.
  - intros Hfits i Hd. rewrite <- (int_delta_fits cal raw Hfits) in Hd.
    rewrite _applyCalibration_unfold. fold cal. fold raw.
    pose proof (scale_axis_degenerate cal raw i Hd) as Hnone.
    destruct i.
    + rewrite Hnone. apply bind_None.
    + destruct (scale_axis raw.[AxX] _ _); [| apply bind_None].
      rewrite bind_Some, Hnone. apply bind_None.
    + destruct (scale_axis raw.[AxX] _ _); [| apply bind_None].
      rewrite bind_Some.
      destruct (scale_axis raw.[AxY] _ _); [| apply bind_None].
      rewrite bind_Some, Hnone. apply bind_None.
  - intros Hcal Hraw. rewrite _applyCalibration_unfold. fold cal. fold raw.
    rewrite Hcal, !float_scale_symmetric, !int_offset_symmetric.
    rewrite !scale_axis_one by apply Hraw.
    rewrite !bind_Some. now rewrite arr3_eta.
Qed.

Lemma applyCalibration_scaling_witness :
  let st := with_vRaw (Arr3 5 (-7) 9)
              (setCalibration (-90) 110 (-100) 100 (-100) 100 fresh) in
  let v := Arr3 (-5) (-7) 9 in
  calibration_fits (_vCalibration st) (_vRaw st) /\
  (forall i, calibrated_spec (_vCalibration st) (_vRaw st) i = Some v.[i] /\ in_int v.[i]) /\
  _applyCalibration st = Some (with_vCalibrated v st).
Proof.
  intros st v.
  assert (Hfits : calibration_fits (_vCalibration st) (_vRaw st)).
  { split; try (intros i; destruct i); apply in_intb_spec; reflexivity. }
  assert (Hv : forall i, calibrated_spec (_vCalibration st) (_vRaw st) i = Some v.[i]
                         /\ in_int v.[i]).
  { intros i. split; [destruct i; vm_compute; reflexivity |].
    apply in_intb_spec. destruct i; reflexivity. }
  split; [exact Hfits |]. split; [exact Hv |].
  exact (proj1 (applyCalibration_scaling st) Hfits v Hv).
Defined.

(** The claim as worded fails for bounds 0 and 1 on the X axis: min < max
    holds on every axis, yet avg_delta is 0 there, the scale is infinite,
    and no calibrated values are stored. *)
Lemma applyCalibration_unit_range :
  let st := with_vRaw (Arr3 5 5 5)
              (setCalibration 0 1 (-100) 100 (-100) 100 fresh) in
  (forall i, fst (_vCalibration st).[i] < snd (_vCalibration st).[i]) /\
  cal_delta (_vCalibration st).[AxX] = 0 /\
  cal_scale (_vCalibration st) AxX = S754_infinity false /\
  calibrated_spec (_vCalibration st) (_vRaw st) AxX = None /\
  _applyCalibration st = None.
Proof.
  intros st. split; [intros i; destruct i; reflexivity |].
  repeat split; vm_compute; reflexivity.
Qed.

(** * Further properties of the driver *)

(** ** Decoding bytes *)

Lemma Zrange_forallb2 (P : Z -> Z -> bool) (n m : nat) lo1 lo2 :
  forallb (fun a => forallb (P a) (Zrange lo2 m)) (Zrange lo1 n) = true ->
  forall a b, lo1 <= a < lo1 + Z.of_nat n -> lo2 <= b < lo2 + Z.of_nat m ->
    P a b = true.
Proof.
  intros Hall a b Ha Hb.
  pose proof (Zrange_forallb _ n lo1 Hall a Ha) as Hrow.
  exact (Zrange_forallb _ m lo2 Hrow b Hb).
Qed.

(** X2. Whatever the two reads return, the reassembled value is a 16-bit
    value; for two bytes it is their little-endian two's-complement
    reading, and splitting it gives the two bytes back. *)
Theorem reassemble_bytes (lo hi : Z) :
  -32768 <= reassemble lo hi <= 32767 /\
  (0 <= lo <= 255 -> 0 <= hi <= 255 ->
   reassemble lo hi = (if hi <? 128 then lo + 256 * hi else lo + 256 * hi - 65536) /\
   low_byte (reassemble lo hi) = lo /\
   high_byte (reassemble lo hi) = hi).
Proof.
  split.
  - pose proof (to_int_range (to_int16 (Z.lor lo (to_int (Z.shiftl hi 8))))) as Hr.
    unfold in_int, int_bits in Hr. change (2 ^ (16 - 1)) with 32768 in Hr.
    unfold reassemble. lia.
  - intros Hlo Hhi.
    pose (check := fun lo hi =>
      (reassemble lo hi =? (if hi <? 128 then lo + 256 * hi else lo + 256 * hi - 65536))
      && (low_byte (reassemble lo hi) =? lo) && (high_byte (reassemble lo hi) =? hi)).
    assert (Hall : forallb (fun a => forallb (check a) (Zrange 0 256)) (Zrange 0 256) = true)
      by (vm_compute; reflexivity).
    pose proof (Zrange_forallb2 check 256 256 0 0 Hall lo hi ltac:(lia) ltac:(lia)) as Hc.
    clear Hall. unfold check in Hc.
    apply andb_true_iff in Hc as [Hc H3]. apply andb_true_iff in Hc as [H1 H2].
    apply Z.eqb_eq in H1, H2, H3. now repeat split.
Qed.

Lemma reassemble_bytes_witness :
  0 <= 52 <= 255 /\ 0 <= 255 <= 255 /\
  reassemble 52 255 = -204 /\ low_byte (-204) = 52 /\ high_byte (-204) = 255.
Proof.
  split; [lia |]. split; [lia |].
  destruct (proj2 (reassemble_bytes 52 255) ltac:(lia) ltac:(lia)) as (H1 & H2 & H3).
  split; [exact H1 |]. rewrite H1 in H2, H3. split; [exact H2 | exact H3].
Defined.

(** ** Bearings and labels *)

(** X3. On [0, 359] the bearing [b] of an azimuth is the sector with
    [22.5 b <= azimuth < 22.5 (b + 1)]; [getBearing] is monotone there and
    takes each of the values 0..15. *)
Theorem getBearing_sectors :
  (forall azimuth, 0 <= azimuth <= 359 ->
     exists b, getBearing azimuth = Some b /\
       45 * b <= 2 * azimuth < 45 * (b + 1)) /\
  (forall a1 a2 b1 b2, 0 <= a1 <= a2 -> a2 <= 359 ->
     getBearing a1 = Some b1 -> getBearing a2 = Some b2 -> b1 <= b2) /\
  (forall b, 0 <= b <= 15 ->
     exists azimuth, 0 <= azimuth <= 359 /\ getBearing azimuth = Some b).
Proof.
  split; [| split].
  - intros azimuth Haz. exists (2 * azimuth / 45).
    split; [now apply getBearing_trunc |].
    pose proof (Z.mul_div_le (2 * azimuth) 45 ltac:(lia)).
    pose proof (Z.mul_succ_div_gt (2 * azimuth) 45 ltac:(lia)). lia.
  - intros a1 a2 b1 b2 H1 H2 E1 E2.
    rewrite getBearing_trunc in E1, E2 by lia.
    injection E1 as <-. injection E2 as <-.
    apply Z.div_le_mono; lia.
  - intros b Hb. exists ((45 * b + 1) / 2).
    assert (Hlo : 45 * b <= 2 * ((45 * b + 1) / 2) <= 45 * b + 1).
    { pose proof (Z.mul_div_le (45 * b + 1) 2 ltac:(lia)).
      pose proof (Z.mul_succ_div_gt (45 * b + 1) 2 ltac:(lia)). lia. }
    split; [lia |]. rewrite getBearing_trunc by lia. f_equal.
    symmetry. apply (Z.div_unique _ 45 b (2 * ((45 * b + 1) / 2) - 45 * b)); lia.
Qed.

Lemma getBearing_sectors_witness :
  0 <= 100 <= 359 /\
  exists b, getBearing 100 = Some b /\ 45 * b <= 2 * 100 < 45 * (b + 1).
Proof.
  split; [lia |]. apply (proj1 getBearing_sectors 100). lia.
Defined.

Lemma _bearings_NoDup : NoDup _bearings.
Proof.
  unfold _bearings.
  repeat (apply NoDup_cons; split;
          [intros Hin;
           repeat (apply elem_of_cons in Hin as [Hin | Hin]; [discriminate Hin |]);
           now apply elem_of_nil in Hin |]).
  apply NoDup_nil. exact I.
Qed.

(** X4. On [0, 359] the label identifies the bearing: two azimuths get the
    same three characters exactly when they get the same bearing. *)
Theorem getDirection_label (a1 a2 : Z) :
  0 <= a1 <= 359 -> 0 <= a2 <= 359 ->
  (getDirection a1 = getDirection a2 <-> getBearing a1 = getBearing a2).
Proof.
  intros H1 H2.
  assert (Hrow : forall a, 0 <= a <= 359 ->
            getDirection a = _bearings !! Z.to_nat (2 * a / 45)
            /\ (Z.to_nat (2 * a / 45) < length _bearings)%nat).
  { intros a Ha. split.
    - unfold getDirection. rewrite getBearing_trunc by exact Ha. rewrite bind_Some.
      destruct (_bearings !! Z.to_nat (2 * a / 45)) as [row |]; [| reflexivity].
      rewrite bind_Some. now destruct row.
    - change (length _bearings) with 16%nat.
      assert (2 * a / 45 < 16) by (apply Z.div_lt_upper_bound; lia).
      pose proof (Z.div_pos (2 * a) 45 ltac:(lia) ltac:(lia)). lia. }
  destruct (Hrow a1 H1) as [E1 L1]. destruct (Hrow a2 H2) as [E2 L2].
  rewrite !getBearing_trunc by assumption. split.
  - intros E. rewrite E1, E2 in E.
    destruct (lookup_lt_is_Some_2 _ _ L1) as [row Hr1]. rewrite Hr1 in E.
    symmetry in E. pose proof (NoDup_lookup _ _ _ _ _bearings_NoDup Hr1 E) as Hidx.
    f_equal.
    pose proof (Z.div_pos (2 * a1) 45 ltac:(lia) ltac:(lia)).
    pose proof (Z.div_pos (2 * a2) 45 ltac:(lia) ltac:(lia)). lia.
  - intros E. injection E as E. now rewrite E1, E2, E.
Qed.

Lemma getDirection_label_witness :
  0 <= 0 <= 359 /\ 0 <= 22 <= 359 /\ getDirection 0 = getDirection 22.
Proof.
  split; [lia |]. split; [lia |].
  apply (proj2 (getDirection_label 0 22 ltac:(lia) ltac:(lia))).
  vm_compute. reflexivity.
Defined.

(** ** Register writes *)

(** X5. [init] starts the bus and then writes 0x01 to register 0x0B and
    0x1D (continuous mode, 200 Hz, 8 G, oversampling 512) to register 0x09
    of the device at the configured address, in this order; it requests
    and reads nothing, and an address set with [setADDR] is the one used. *)
Theorem init_traffic (st : Compass) (w : ScriptedBus) (b : Z) :
  init st w
    = MkBus (sb_status w) (sb_device w) (sb_rx w) (sb_log w ++ init_calls (_ADDR st)) /\
  init (setADDR b st) w
    = MkBus (sb_status w) (sb_device w) (sb_rx w) (sb_log w ++ init_calls b) /\
  Z.lor (Z.lor (Z.lor 1 12) 16) 0 = 29.
Proof.
  split; [| split]; [| | reflexivity].
  - unfold init, setMode, _writeReg, init_calls. cbn.
    unfold sb_call. cbn. f_equal. now rewrite <- !app_assoc.
  - unfold init, setMode, _writeReg, init_calls. cbn.
    unfold sb_call. cbn. f_equal. now rewrite <- !app_assoc.
Qed.

(** X6. For the field values the driver documents (mode 0x00/0x01, output
    rate 0x00/0x04/0x08/0x0C, range 0x00/0x10, oversampling
    0x00/0x40/0x80/0xC0) [setMode] writes one byte to register 0x09 in
    which the four fields occupy disjoint bits, so each field can be read
    back from the byte. *)
Theorem setMode_fields (mode odr rng osr : Z) (st : Compass) (w : ScriptedBus) :
  In mode [0; 1] -> In odr [0; 4; 8; 12] -> In rng [0; 16] -> In osr [0; 64; 128; 192] ->
  exists v,
    sb_log (setMode mode odr rng osr st w)
      = sb_log w ++ [CallBeginTransmission (_ADDR st); CallWrite 9; CallWrite v;
                     CallEndTransmission] /\
    0 <= v <= 255 /\ v = mode + odr + rng + osr /\
    Z.land v 3 = mode /\ Z.land v 12 = odr /\ Z.land v 48 = rng /\ Z.land v 192 = osr.
Proof.
  intros Hm Ho Hr Hs. exists (Z.lor (Z.lor (Z.lor mode odr) rng) osr).
  split.
  { unfold setMode, _writeReg. cbn. now rewrite <- !app_assoc. }
  simpl in Hm, Ho, Hr, Hs.
  destruct Hm as [<- | [<- | []]];
    destruct Ho as [<- | [<- | [<- | [<- | []]]]];
    destruct Hr as [<- | [<- | []]];
    destruct Hs as [<- | [<- | [<- | [<- | []]]]];
    vm_compute; intuition discriminate.
Qed.

Lemma setMode_fields_witness :
  In 1 [0; 1] /\ In 12 [0; 4; 8; 12] /\ In 16 [0; 16] /\ In 0 [0; 64; 128; 192] /\
  exists v,
    sb_log (setMode 1 12 16 0 fresh (MkBus 0 [] [] [])) 
      = [CallBeginTransmission 13; CallWrite 9; CallWrite v; CallEndTransmission] /\
    v = 29.
Proof.
  assert (H1 : In 1 [0; 1]) by (simpl; tauto).
  assert (H2 : In 12 [0; 4; 8; 12]) by (simpl; tauto).
  assert (H3 : In 16 [0; 16]) by (simpl; tauto).
  assert (H4 : In 0 [0; 64; 128; 192]) by (simpl; tauto).
  split; [exact H1 |]. split; [exact H2 |]. split; [exact H3 |]. split; [exact H4 |].
  destruct (setMode_fields 1 12 16 0 fresh (MkBus 0 [] [] []) H1 H2 H3 H4)
    as (v & Hlog & _ & Hv & _).
  exists v. split; [exact Hlog | exact Hv].
Defined.

(** ** A successful read *)

Lemma read_scripted (st : Compass) (w : ScriptedBus) :
  sb_status w = 0 ->
  read st w
  = (fun st' => (st', MkBus 0 (drop 6 (sb_device w)) []
                       (sb_log w ++ read_calls (_ADDR st))))
      <$> refresh (decode (take 6 (sb_device w))) st.
Proof.
  intros Hs. destruct w as [status dev rx log]. cbn in Hs. subst status.
  assert (Hlog :
            (((((((((log ++ [CallBeginTransmission (_ADDR st)]) ++ [CallWrite 0])
                 ++ [CallEndTransmission]) ++ [CallRequestFrom (_ADDR st) 6])
               ++ [CallRead]) ++ [CallRead]) ++ [CallRead]) ++ [CallRead])
              ++ [CallRead]) ++ [CallRead] = log ++ read_calls (_ADDR st)).
  { unfold read_calls. now rewrite <- !app_assoc. }
  unfold read, refresh.
  cbn [Wire_beginTransmission Wire_write Wire_endTransmission Wire_requestFrom
       Wire_read ScriptedBus_TwoWire sb_call sb_status sb_device sb_rx sb_log Z.eqb].
  change (Z.to_nat 6) with 6%nat.
  destruct dev as [| b0 [| b1 [| b2 [| b3 [| b4 [| b5 rest]]]]]];
    cbn [sb_call sb_status sb_device sb_rx sb_log take drop fst snd decode nth];
    unfold sb_call, decode; cbn [sb_status sb_device sb_rx sb_log nth];
    rewrite Hlog;
    match goal with
    | |- context [with_vRaw ?v st] => generalize (with_vRaw v st); intros s0
    end;
    destruct (_calibrationUse s0);
    try destruct (_applyCalibration s0) as [st1 |];
    cbn [mbind option_bind fmap option_fmap option_map];
    try reflexivity;
    match goal with
    | |- context [_smoothUse ?s] => destruct (_smoothUse s); try destruct (_smoothing s)
    end;
    reflexivity.
Qed.

Lemma reassemble_split (v : Z) :
  -32768 <= v <= 32767 -> reassemble (low_byte v) (high_byte v) = v.
Proof.
  intros Hv.
  pose (check := fun v => reassemble (low_byte v) (high_byte v) =? v).
  assert (Hall : forallb check (Zrange (-32768) (Z.to_nat 65536)) = true)
    by (vm_compute; reflexivity).
  pose proof (Zrange_forallb check _ _ Hall v ltac:(lia)) as Hc.
  now apply Z.eqb_eq in Hc.
Qed.

Lemma decode_sample_bytes (v : arr3 Z) (rest : list Z) :
  int16_sample v -> decode (take 6 (sample_bytes v ++ rest)) = v.
Proof.
  intros Hv. unfold sample_bytes, decode.
  cbn [app take nth].
  rewrite !reassemble_split by apply Hv. now destruct v.
Qed.

(** X1. When the device acknowledges and sends the six bytes of a 16-bit
    sample, [read] stores exactly that sample: with calibration and
    smoothing off the three getters return it, the rest of the driver
    state is untouched, the six bytes are consumed and the bus sees one
    register-pointer write, one request for six bytes and six reads. *)
Theorem read_delivers_sample (st : Compass) (w : ScriptedBus) (v : arr3 Z)
    (rest : list Z) :
  sb_status w = 0 ->
  sb_device w = sample_bytes v ++ rest ->
  int16_sample v ->
  _calibrationUse st = false -> _smoothUse st = false ->
  read st w
    = Some (with_vRaw v st, MkBus 0 rest [] (sb_log w ++ read_calls (_ADDR st))) /\
  getX (with_vRaw v st) = v.[AxX] /\
  getY (with_vRaw v st) = v.[AxY] /\
  getZ (with_vRaw v st) = v.[AxZ].
Proof.
  intros Hs Hd Hv Hc Hm. split.
  - rewrite read_scripted by exact Hs. rewrite Hd, decode_sample_bytes by exact Hv.
    unfold refresh.
    change (_calibrationUse (with_vRaw v st)) with (_calibrationUse st). rewrite Hc.
    rewrite bind_Some.
    change (_smoothUse (with_vRaw v st)) with (_smoothUse st). rewrite Hm.
    reflexivity.
  - unfold getX, getY, getZ, _get.
    change (_calibrationUse (with_vRaw v st)) with (_calibrationUse st).
    change (_smoothUse (with_vRaw v st)) with (_smoothUse st).
    now rewrite Hc, Hm.
Qed.

Lemma read_delivers_sample_witness :
  let v := Arr3 (-32768) 1234 32767 in
  let w := MkBus 0 (sample_bytes v ++ [7; 7]) [9] [] in
  sb_status w = 0 /\ sb_device w = sample_bytes v ++ [7; 7] /\ int16_sample v /\
  _calibrationUse fresh = false /\ _smoothUse fresh = false /\
  read fresh w = Some (with_vRaw v fresh, MkBus 0 [7; 7] [] (read_calls 13)).
Proof.
  intros v w.
  assert (Hv : int16_sample v) by (intros i; destruct i; cbn; lia).
  split; [reflexivity |]. split; [reflexivity |]. split; [exact Hv |].
  split; [reflexivity |]. split; [reflexivity |].
  exact (proj1 (read_delivers_sample fresh w v [7; 7] eq_refl eq_refl Hv eq_refl eq_refl)).
Defined.



(** ** The smoothing filter, window sizes 0 to 10 *)

Lemma slot_in_history st :
  wf st -> 0 <= slot st <= 9 /\ (1 <= _smoothSteps st -> slot st <= _smoothSteps st - 1).
Proof.
  intros Hwf. pose proof (wf_steps st Hwf). pose proof (wf_scan st Hwf).
  unfold slot. destruct (_smoothSteps st - 1 <? _vScan st) eqn:E.
  - lia.
  - apply Z.ltb_ge in E. lia.
Qed.

Lemma _smoothing_Some st :
  wf st -> smoothing_defined st -> _smoothing st = Some (after_smoothing st).
Proof.
  intros Hwf Hdef.
  destruct (slot_in_history st Hwf) as [Hslot _].
  pose proof (wf_history st Hwf) as Hlen.
  pose proof (_vScan_reset_cursor st) as Hscan.
  assert (Hh : _vHistory (reset_cursor st) = _vHistory st)
    by (unfold reset_cursor; now destruct (_ <? _)).
  assert (Hd : smoothing_defined (reset_cursor st))
    by (unfold reset_cursor; now destruct (_ <? _)).
  rewrite _smoothing_unfold.
  rewrite (smooth_axis_after AxX (reset_cursor st)); [| rewrite Hscan, Hh; lia | exact Hd].
  rewrite bind_Some.
  rewrite (smooth_axis_after AxY).
  2: { rewrite _vHistory_after_axis, _vScan_after_axis, length_hist_set, Hscan, Hh. lia. }
  2: { now rewrite smoothing_defined_after_axis. }
  rewrite bind_Some.
  rewrite (smooth_axis_after AxZ).
  2: { rewrite _vHistory_after_axis, _vScan_after_axis, length_hist_set.
       rewrite _vHistory_after_axis, _vScan_after_axis, length_hist_set, Hscan, Hh. lia. }
  2: { now rewrite !smoothing_defined_after_axis. }
  rewrite bind_Some.
  reflexivity.
Qed.

Lemma smooth_axis_None i s : ~ smoothing_defined s -> smooth_axis i s = None.
Proof.
  destruct s as [su steps adv addr raw h scan tot sm cu cal cald].
  unfold smoothing_defined, smooth_axis.
  cbn [_smoothAdvanced _smoothSteps with_vTotals with_vHistory].
  intros Hnd. destruct adv.
  - destruct (steps - 2 =? 0) eqn:E; [reflexivity |].
    apply Z.eqb_neq in E. exfalso. apply Hnd. lia.
  - destruct (steps =? 0) eqn:E; [reflexivity |].
    apply Z.eqb_neq in E. contradiction.
Qed.

Lemma _smoothing_None st : ~ smoothing_defined st -> _smoothing st = None.
Proof.
  intros Hnd. rewrite _smoothing_unfold.
  rewrite smooth_axis_None; [reflexivity |].
  unfold reset_cursor. now destruct (_ <? _).
Qed.

Lemma after_smoothing_state st :
  wf st ->
  _vScan (after_smoothing st) = slot st + 1 /\
  _vHistory (after_smoothing st)
    = <[Z.to_nat (slot st) := incoming st]> (_vHistory st) /\
  _smoothSteps (after_smoothing st) = _smoothSteps st /\
  (forall i, (_vTotals (after_smoothing st)).[i]
     = to_long (after_eviction (_vTotals st).[i]
                  (hist_get (_vHistory st) (Z.to_nat (slot st)) i)
                + (incoming st).[i])) /\
  (forall i, (_vSmooth (after_smoothing st)).[i]
     = smooth_value (_smoothAdvanced st) (_smoothSteps st)
         (_vHistory (after_smoothing st)) (_vTotals (after_smoothing st)).[i] i).
Proof.
  intros Hwf.
  destruct (slot_in_history st Hwf) as [Hslot _].
  pose proof (wf_history st Hwf) as Hlen.
  destruct (reset_cursor_fields st) as (Hh & Ht & Hs & Hi & Ha & Hst).
  pose proof (_vScan_reset_cursor st) as Hscan.
  rewrite after_smoothing_unfold.
  remember (reset_cursor st) as s0 eqn:Es0.
  assert (Hc : (Z.to_nat (_vScan s0) < length (_vHistory s0))%nat)
    by (rewrite Hscan, Hh; lia).
  remember (after_axis AxZ (after_axis AxY (after_axis AxX s0))) as s3 eqn:Es3.
  assert (E5 : _vScan s3 = _vScan s0).
  { rewrite Es3. now rewrite !_vScan_after_axis. }
  assert (E6 : _smoothSteps s3 = _smoothSteps s0).
  { rewrite Es3.
    rewrite (proj1 (proj2 (config_after_axis AxZ _))).
    rewrite (proj1 (proj2 (config_after_axis AxY _))).
    apply (proj1 (proj2 (config_after_axis AxX _))). }
  destruct (with_vScan_fields (to_int (_vScan s3 + 1)) s3) as (F1 & F2 & F3 & F4 & F5).
  rewrite F1, F2, F3, F4, F5.
  split; [| split; [| split; [| split]]].
  - rewrite E5, Hscan. apply to_int_small.
    unfold in_int, int_bits. change (2 ^ (16 - 1)) with 32768. lia.
  - rewrite Es3, three_axes_history by exact Hc.
    now rewrite Hscan, Hi, Hh.
  - now rewrite E6.
  - intros i. rewrite Es3, three_axes_totals.
    now rewrite Hscan, Hi, Hh, Ht.
  - intros i. rewrite Es3, three_axes_smooth.
    now rewrite Ha, Hst.
Qed.

Lemma after_smoothing_flags st :
  _smoothUse (after_smoothing st) = _smoothUse st /\
  _calibrationUse (after_smoothing st) = _calibrationUse st /\
  _smoothAdvanced (after_smoothing st) = _smoothAdvanced st /\
  _vCalibration (after_smoothing st) = _vCalibration st /\
  _ADDR (after_smoothing st) = _ADDR st.
Proof.
  unfold after_smoothing, reset_cursor.
  destruct (_smoothSteps st - 1 <? _vScan st); repeat split.
Qed.

Lemma after_smoothing_keeps_wf st : wf st -> wf (after_smoothing st).
Proof.
  intros Hwf.
  destruct (after_smoothing_state st Hwf) as (Hscan & Hh & Hsteps & _ & _).
  destruct (after_smoothing_inputs st) as [Hraw Hcal].
  destruct (slot_in_history st Hwf) as [Hslot _].
  split.
  - rewrite Hh, length_insert. apply (wf_history st Hwf).
  - rewrite Hsteps. apply (wf_steps st Hwf).
  - rewrite Hscan. lia.
  - intros j i. rewrite Hh.
    destruct (decide (Z.to_nat (slot st) = j)) as [<- | Hne].
    + rewrite hist_get_insert_eq.
      * now apply incoming_int.
      * rewrite (wf_history st Hwf). lia.
    + rewrite hist_get_insert_ne by exact Hne. apply (wf_history_int st Hwf).
  - intros i. rewrite Hraw. apply (wf_raw_int st Hwf).
  - intros i. rewrite Hcal. apply (wf_calibrated_int st Hwf).
Qed.

(** X7. On a well-formed state [_smoothing] has no defined result exactly
    when it would divide by zero: in basic mode with window size 0, and in
    advanced mode with window size 2.  In every other case it returns a
    well-formed state, writes one row of the history, leaves the window
    size and the mode flags alone, and leaves the cursor in 1..10. *)
Theorem smoothing_division (st : Compass) :
  wf st ->
  (_smoothing st = None <->
     (_smoothAdvanced st = false /\ _smoothSteps st = 0) \/
     (_smoothAdvanced st = true /\ _smoothSteps st = 2)) /\
  (forall st', _smoothing st = Some st' ->
     wf st' /\ 1 <= _vScan st' <= 10 /\
     _smoothSteps st' = _smoothSteps st /\
     _smoothAdvanced st' = _smoothAdvanced st /\
     exists row j, (j < 10)%nat /\ _vHistory st' = <[j := row]> (_vHistory st)).
Proof.
  intros Hwf.
  assert (Hdec : smoothing_defined st \/
                 ((_smoothAdvanced st = false /\ _smoothSteps st = 0) \/
                  (_smoothAdvanced st = true /\ _smoothSteps st = 2))).
  { unfold smoothing_defined. destruct (_smoothAdvanced st).
    - destruct (Z.eq_dec (_smoothSteps st) 2); [right; right | left]; tauto.
    - destruct (Z.eq_dec (_smoothSteps st) 0); [right; left | left]; tauto. }
  assert (Hnd : (_smoothAdvanced st = false /\ _smoothSteps st = 0) \/
                (_smoothAdvanced st = true /\ _smoothSteps st = 2) ->
                ~ smoothing_defined st).
  { unfold smoothing_defined. intros [[-> ->] | [-> ->]] Hd; now apply Hd. }
  split.
  - split.
    + intros Hnone. destruct Hdec as [Hd | Hb]; [| exact Hb].
      rewrite (_smoothing_Some st Hwf Hd) in Hnone. discriminate Hnone.
    + intros Hb. apply _smoothing_None. now apply Hnd.
  - intros st' Hsome. destruct Hdec as [Hd | Hb].
    2: { rewrite (_smoothing_None st (Hnd Hb)) in Hsome. discriminate Hsome. }
    rewrite (_smoothing_Some st Hwf Hd) in Hsome. injection Hsome as <-.
    destruct (after_smoothing_state st Hwf) as (Hscan & Hh & Hsteps & _ & _).
    destruct (after_smoothing_flags st) as (_ & _ & Hadv & _ & _).
    destruct (slot_in_history st Hwf) as [Hslot _].
    split; [now apply after_smoothing_keeps_wf |].
    split; [lia |]. split; [exact Hsteps |]. split; [exact Hadv |].
    exists (incoming st), (Z.to_nat (slot st)). split; [lia | exact Hh].
Qed.

Lemma smoothing_division_witness :
  let st := with_vRaw (Arr3 4 5 6) (setSmoothing 2 true fresh) in
  wf st /\ _smoothing st = None /\
  _smoothing (with_vRaw (Arr3 4 5 6) (setSmoothing 0 false fresh)) = None.
Proof.
  intros st.
  assert (Hwf : wf st) by (apply wfb_wf; reflexivity).
  split; [exact Hwf |]. split.
  - apply (proj1 (smoothing_division st Hwf)). right. split; reflexivity.
  - reflexivity.
Defined.

(** ** [read] keeps the state well formed *)

Lemma smoothing_decidable st : smoothing_defined st \/ ~ smoothing_defined st.
Proof.
  unfold smoothing_defined. destruct (_smoothAdvanced st).
  - destruct (Z.eq_dec (_smoothSteps st) 2); tauto.
  - destruct (Z.eq_dec (_smoothSteps st) 0); tauto.
Qed.



Lemma scale_axis_int raw offset scale c :
  scale_axis raw offset scale = Some c -> in_int c.
Proof.
  unfold scale_axis, F32.to_int.
  destruct (F32.trunc _) as [v |]; [| discriminate].
  rewrite bind_Some. destruct (in_intb v) eqn:E; [| discriminate].
  intros Hc. injection Hc as <-. now apply in_intb_spec.
Qed.

Lemma _applyCalibration_wf st st' :
  wf st -> _applyCalibration st = Some st' ->
  wf st' /\ exists v, st' = with_vCalibrated v st.
Proof.
  intros [H1 H2 H3 H4 H5 H6] Hc. rewrite _applyCalibration_unfold in Hc.
  destruct (scale_axis _ _ (float_scale _ AxX)) as [cx |] eqn:Ex; [| discriminate Hc].
  rewrite bind_Some in Hc.
  destruct (scale_axis _ _ (float_scale _ AxY)) as [cy |] eqn:Ey; [| discriminate Hc].
  rewrite bind_Some in Hc.
  destruct (scale_axis _ _ (float_scale _ AxZ)) as [cz |] eqn:Ez; [| discriminate Hc].
  rewrite bind_Some in Hc. injection Hc as <-.
  split; [| now exists (Arr3 cx cy cz)].
  split; try assumption.
  intros i. destruct i; [apply (scale_axis_int _ _ _ _ Ex)
                        | apply (scale_axis_int _ _ _ _ Ey)
                        | apply (scale_axis_int _ _ _ _ Ez)].
Qed.

Lemma refresh_wf v st st' :
  wf st -> (forall i, in_int v.[i]) -> refresh v st = Some st' -> wf st'.
Proof.
  intros Hwf Hv. unfold refresh.
  pose proof (wf_with_vRaw v st Hv Hwf) as Hwf0.
  remember (with_vRaw v st) as s0 eqn:Es0. clear Es0.
  destruct (_calibrationUse s0).
  - destruct (_applyCalibration s0) as [s1 |] eqn:Ec; [| discriminate].
    rewrite bind_Some. destruct (_applyCalibration_wf s0 s1 Hwf0 Ec) as [Hwf1 _].
    destruct (_smoothUse s1).
    + intros Hs.
      destruct (smoothing_decidable s1) as [Hd | Hnd].
      * rewrite (_smoothing_Some s1 Hwf1 Hd) in Hs. injection Hs as <-.
        now apply after_smoothing_keeps_wf.
      * rewrite (_smoothing_None s1 Hnd) in Hs. discriminate Hs.
    + intros Hs. now injection Hs as <-.
  - rewrite bind_Some. destruct (_smoothUse s0).
    + intros Hs.
      destruct (smoothing_decidable s0) as [Hd | Hnd].
      * rewrite (_smoothing_Some s0 Hwf0 Hd) in Hs. injection Hs as <-.
        now apply after_smoothing_keeps_wf.
      * rewrite (_smoothing_None s0 Hnd) in Hs. discriminate Hs.
    + intros Hs. now injection Hs as <-.
Qed.

Section AnyBus.

Context {W : Type} `{TwoWire W}.

(** What a call of [read] can have done. *)
Lemma read_outcome (st st' : Compass) (w w' : W) :
  read st w = Some (st', w') ->
  st' = st \/ exists v, (forall i, in_int v.[i]) /\ refresh v st = Some st'.
Proof.
  unfold read.
  destruct (Wire_endTransmission _) as [err w1].
  destruct (err =? 0); [| intros E; injection E as <- _; now left].
  destruct (Wire_read _) as [x_lo w2]. destruct (Wire_read _) as [x_hi w3].
  destruct (Wire_read _) as [y_lo w4]. destruct (Wire_read _) as [y_hi w5].
  destruct (Wire_read _) as [z_lo w6]. destruct (Wire_read _) as [z_hi w7].
  intros E. right.
  exists (Arr3 (reassemble x_lo x_hi) (reassemble y_lo y_hi) (reassemble z_lo z_hi)).
  split; [intros i; destruct i; apply to_int_range |].
  revert E. unfold refresh.
  generalize (with_vRaw (Arr3 (reassemble x_lo x_hi) (reassemble y_lo y_hi)
                              (reassemble z_lo z_hi)) st).
  intros s0.
  destruct (if _calibrationUse s0 then _applyCalibration s0 else Some s0) as [s1 |];
    [| intros E; discriminate E].
  rewrite !bind_Some.
  destruct (if _smoothUse s1 then _smoothing s1 else Some s1) as [s2 |];
    [| intros E; discriminate E].
  rewrite bind_Some. intros E. now injection E as <- _.
Qed.

(** X8. Whatever the bus does, a call of [read] that returns leaves a
    well-formed state well formed: the history keeps its ten rows, the
    cursor stays non-negative, the window size is untouched and every
    stored sample fits an [int]. *)
Theorem read_keeps_wf (st st' : Compass) (w w' : W) :
  wf st -> read st w = Some (st', w') ->
  wf st' /\ _smoothSteps st' = _smoothSteps st.
Proof.
  intros Hwf Hr. destruct (read_outcome st st' w w' Hr) as [-> | (v & Hv & Hf)].
  - now split.
  - split; [exact (refresh_wf v st st' Hwf Hv Hf) |].
    revert Hf. unfold refresh.
    remember (with_vRaw v st) as s0 eqn:Es0.
    assert (Hs0 : _smoothSteps s0 = _smoothSteps st) by now subst s0.
    pose proof (wf_with_vRaw v st Hv Hwf) as Hwf0. rewrite <- Es0 in Hwf0.
    clear Es0.
    assert (Hs1 : forall s1,
              (if _calibrationUse s0 then _applyCalibration s0 else Some s0) = Some s1 ->
              wf s1 /\ _smoothSteps s1 = _smoothSteps st).
    { intros s1. destruct (_calibrationUse s0).
      - intros Ec. destruct (_applyCalibration_wf s0 s1 Hwf0 Ec) as [Hw (c & ->)].
        now split.
      - intros Ec. injection Ec as <-. now split. }
    destruct (if _calibrationUse s0 then _applyCalibration s0 else Some s0) as [s1 |];
      [| discriminate].
    destruct (Hs1 s1 eq_refl) as [Hwf1 Hst1]. rewrite bind_Some.
    destruct (_smoothUse s1); [| intros E; now injection E as <-].
    intros Hs. destruct (smoothing_decidable s1) as [Hd | Hnd].
    + rewrite (_smoothing_Some s1 Hwf1 Hd) in Hs. injection Hs as <-.
      now rewrite (proj1 (proj2 (proj2 (after_smoothing_state s1 Hwf1)))).
    + rewrite (_smoothing_None s1 Hnd) in Hs. discriminate Hs.
Qed.

End AnyBus.

Lemma read_keeps_wf_witness :
  let st := setSmoothing 5 false fresh in
  let w := MkBus 0 [1; 2; 3; 4; 5; 6] [] [] in
  wf st /\ exists st' w', read st w = Some (st', w') /\ wf st'.
Proof.
  intros st w.
  assert (Hwf : wf st) by (apply wfb_wf; reflexivity).
  split; [exact Hwf |].
  destruct (read st w) as [[st' w'] |] eqn:E; [| vm_compute in E; discriminate E].
  exists st', w'. split; [reflexivity |].
  exact (proj1 (read_keeps_wf st st' w w' Hwf E)).
Defined.

(** ** Basic smoothing computes the window mean *)

Lemma Zsum_between (l : list Z) lo hi :
  Forall (fun x => lo <= x <= hi) l ->
  Z.of_nat (length l) * lo <= Zsum l <= Z.of_nat (length l) * hi.
Proof.
  induction 1 as [| x l Hx _ IH]; simpl length; simpl Zsum; [lia |].
  rewrite Nat2Z.inj_succ. lia.
Qed.

Lemma quot_between s n lo hi :
  1 <= n -> n * lo <= s <= n * hi -> lo <= s ÷ n <= hi.
Proof.
  intros Hn Hs. destruct (Z.le_gt_cases 0 s) as [Hpos | Hneg].
  - rewrite Z.quot_div_nonneg by lia. split.
    + apply Z.div_le_lower_bound; lia.
    + apply Z.lt_succ_r. apply Z.div_lt_upper_bound; lia.
  - replace s with (- (- s)) by lia. rewrite Z.quot_opp_l by lia.
    rewrite Z.quot_div_nonneg by lia.
    assert (- hi <= (- s) / n) by (apply Z.div_le_lower_bound; lia).
    assert ((- s) / n < - lo + 1) by (apply Z.div_lt_upper_bound; lia).
    lia.
Qed.



Lemma window_length st :
  wf st -> Z.of_nat (length (window st AxX)) = _smoothSteps st /\
           forall i, length (window st i) = length (window st AxX).
Proof.
  intros Hwf. pose proof (wf_steps st Hwf). pose proof (wf_history st Hwf) as Hlen.
  unfold window. split; [| intros i]; rewrite !length_fmap, !length_take; lia.
Qed.

(** The running sum follows the window when the guarded subtraction was
    not skipped on a nonzero value. *)
Lemma totals_follow_window st i :
  wf st -> 1 <= _smoothSteps st ->
  (_vTotals st).[i] = window_sum st i ->
  (_vTotals st).[i] <> 0 \/ hist_get (_vHistory st) (Z.to_nat (slot st)) i = 0 ->
  (_vTotals (after_smoothing st)).[i] = window_sum (after_smoothing st) i.
Proof.
  intros Hwf Hn Hinv Hguard.
  destruct (after_smoothing_state st Hwf) as (_ & Hh & Hsteps & Ht & _).
  rewrite (window_sum_update st _ (incoming st) i Hwf Hn Hsteps Hh).
  rewrite Ht.
  pose proof (window_sum_bound st i Hwf) as Hb. rewrite <- Hinv in Hb. rewrite <- Hinv.
  pose proof (wf_history_int st Hwf (Z.to_nat (slot st)) i) as Hl.
  pose proof (incoming_int st i Hwf) as Hi.
  unfold in_int, int_bits in Hl, Hi. change (2 ^ (16 - 1)) with 32768 in Hl, Hi.
  set (total := (_vTotals st).[i]) in *.
  set (leaving := hist_get (_vHistory st) (Z.to_nat (slot st)) i) in *.
  unfold after_eviction. destruct (total =? 0) eqn:E.
  - apply Z.eqb_eq in E. destruct Hguard as [Hne | Hz]; [contradiction |].
    rewrite to_long_small; [lia |].
    unfold in_long, long_bits. change (2 ^ (32 - 1)) with 2147483648. lia.
  - rewrite (to_long_small (total - leaving)).
    + rewrite to_long_small; [lia |].
      unfold in_long, long_bits. change (2 ^ (32 - 1)) with 2147483648. lia.
    + unfold in_long, long_bits. change (2 ^ (32 - 1)) with 2147483648. lia.
Qed.

(** In basic mode a sum that is the sum of its window gives a smoothed
    value that is the truncated mean, between any bounds of the window. *)
Lemma basic_value_between st i lo hi :
  wf st -> 1 <= _smoothSteps st -> _smoothAdvanced st = false ->
  (_vTotals (after_smoothing st)).[i] = window_sum (after_smoothing st) i ->
  (forall x, x ∈ window (after_smoothing st) i -> lo <= x <= hi) ->
  (_vSmooth (after_smoothing st)).[i]
    = window_sum (after_smoothing st) i ÷ _smoothSteps st /\
  lo <= (_vSmooth (after_smoothing st)).[i] <= hi.
Proof.
  intros Hwf Hn Hbasic Hsum Hwin.
  destruct (after_smoothing_state st Hwf) as (_ & _ & Hsteps & _ & Hs).
  pose proof (after_smoothing_keeps_wf st Hwf) as Hwf'.
  rewrite Hs, Hbasic. unfold smooth_value. rewrite Hsum.
  destruct (window_length (after_smoothing st) Hwf') as [Hlen Hlen'].
  rewrite Hsteps in Hlen.
  assert (Hq : forall a b, (forall x, x ∈ window (after_smoothing st) i -> a <= x <= b) ->
             a <= window_sum (after_smoothing st) i ÷ _smoothSteps st <= b).
  { intros a b Hab. apply quot_between; [exact Hn |].
    rewrite <- Hlen, <- (Hlen' i). apply Zsum_between.
    apply Forall_forall. exact Hab. }
  assert (Hint : in_int (window_sum (after_smoothing st) i ÷ _smoothSteps st)).
  { unfold in_int, int_bits. change (2 ^ (16 - 1)) with 32768.
    assert (-32768 <= window_sum (after_smoothing st) i ÷ _smoothSteps st <= 32767);
      [| lia].
    apply Hq. intros x Hx. apply list_elem_of_lookup in Hx as [j Hj].
    apply window_lookup in Hj as ->.
    pose proof (wf_history_int _ Hwf' j i) as Hr.
    unfold in_int, int_bits in Hr. change (2 ^ (16 - 1)) with 32768 in Hr. lia. }
  rewrite to_int_small by exact Hint. split; [reflexivity |]. now apply Hq.
Qed.

(** X9. In basic mode with window size N >= 1, an update that starts from
    a running sum equal to the sum of the window (and does not skip the
    subtraction on a nonzero value) returns the mean of the N values of the
    new window, truncated toward zero; the result lies between the least
    and the greatest value in the window. *)
Theorem smoothing_basic_mean (st : Compass) (i : axis) :
  wf st -> 1 <= _smoothSteps st -> _smoothAdvanced st = false ->
  (_vTotals st).[i] = window_sum st i ->
  (_vTotals st).[i] <> 0 \/ hist_get (_vHistory st) (Z.to_nat (slot st)) i = 0 ->
  exists st', _smoothing st = Some st' /\
    (_vTotals st').[i] = window_sum st' i /\
    Z.of_nat (length (window st' i)) = _smoothSteps st /\
    (_vSmooth st').[i] = window_sum st' i ÷ _smoothSteps st /\
    forall lo hi, (forall x, x ∈ window st' i -> lo <= x <= hi) ->
      lo <= (_vSmooth st').[i] <= hi.
Proof.
  intros Hwf Hn Hbasic Hinv Hguard. exists (after_smoothing st).
  assert (Hd : smoothing_defined st).
  { unfold smoothing_defined. rewrite Hbasic. lia. }
  pose proof (totals_follow_window st i Hwf Hn Hinv Hguard) as Hsum.
  pose proof (after_smoothing_keeps_wf st Hwf) as Hwf'.
  destruct (window_length _ Hwf') as [Hlen Hlen'].
  rewrite (proj1 (proj2 (proj2 (after_smoothing_state st Hwf)))) in Hlen.
  assert (Hr : forall x, x ∈ window (after_smoothing st) i -> -32768 <= x <= 32767).
  { intros x Hx. apply list_elem_of_lookup in Hx as [j Hj].
    apply window_lookup in Hj as ->.
    pose proof (wf_history_int _ Hwf' j i) as Hr.
    unfold in_int, int_bits in Hr. change (2 ^ (16 - 1)) with 32768 in Hr. lia. }
  destruct (basic_value_between st i (-32768) 32767 Hwf Hn Hbasic Hsum Hr) as [Hval _].
  split; [exact (_smoothing_Some st Hwf Hd) |].
  split; [exact Hsum |].
  split; [rewrite (Hlen' i); exact Hlen |].
  split; [exact Hval |].
  intros lo hi Hwin.
  exact (proj2 (basic_value_between st i lo hi Hwf Hn Hbasic Hsum Hwin)).
Qed.

Lemma smoothing_basic_mean_witness :
  let st := MkCompass true 3 false 13 (Arr3 (-7) 0 0)
              [Arr3 5 0 0; Arr3 (-9) 0 0; Arr3 2 0 0; Arr3 0 0 0; Arr3 0 0 0;
               Arr3 0 0 0; Arr3 0 0 0; Arr3 0 0 0; Arr3 0 0 0; Arr3 0 0 0]
              3 (Arr3 (-2) 0 0) (Arr3 0 0 0) false
              (Arr3 (0, 0) (0, 0) (0, 0)) (Arr3 0 0 0) in
  wf st /\ 1 <= _smoothSteps st /\ _smoothAdvanced st = false /\
  (_vTotals st).[AxX] = window_sum st AxX /\
  ((_vTotals st).[AxX] <> 0 \/ hist_get (_vHistory st) (Z.to_nat (slot st)) AxX = 0) /\
  exists st', _smoothing st = Some st' /\ window st' AxX = [-7; -9; 2] /\
    (_vSmooth st').[AxX] = -4 /\ -9 <= (_vSmooth st').[AxX] <= 2.
Proof.
  intros st.
  assert (Hwf : wf st) by (apply wfb_wf; reflexivity).
  assert (Hn : 1 <= _smoothSteps st) by (cbn; lia).
  assert (Hg : (_vTotals st).[AxX] <> 0
               \/ hist_get (_vHistory st) (Z.to_nat (slot st)) AxX = 0)
    by (left; discriminate).
  split; [exact Hwf |]. split; [exact Hn |]. split; [reflexivity |].
  split; [reflexivity |]. split; [exact Hg |].
  destruct (smoothing_basic_mean st AxX Hwf Hn eq_refl eq_refl Hg)
    as (st' & E & _ & _ & Hv & Hb).
  exists st'.
  assert (E' : _smoothing st = Some (after_smoothing st)) by (vm_compute; reflexivity).
  rewrite E' in E. injection E as <-.
  assert (Hw : window (after_smoothing st) AxX = [-7; -9; 2]) by (vm_compute; reflexivity).
  split; [exact E' |]. split; [exact Hw |]. split.
  - rewrite Hv. vm_compute. reflexivity.
  - apply Hb. rewrite Hw. intros x Hx.
    repeat (apply elem_of_cons in Hx as [-> | Hx]; [lia |]).
    now apply elem_of_nil in Hx.
Defined.






(** * The calibration sketch *)

Import CalibrationSketch.

Lemma track_spec v b ch :
  track v (b, ch)
  = ((Z.min (fst b) v, Z.max (snd b) v), ch || (v <? fst b) || (v >? snd b)).
Proof.
  unfold track. destruct b as [lo hi]. cbn [fst snd].
  destruct (v <? lo) eqn:E1; cbn [fst snd];
    destruct (v >? hi) eqn:E2;
    rewrite ?Z.gtb_ltb in E2;
    try apply Z.ltb_lt in E1; try apply Z.ltb_ge in E1;
    try apply Z.ltb_lt in E2; try apply Z.ltb_ge in E2;
    rewrite ?orb_true_r, ?orb_false_r; f_equal; f_equal; lia.
Qed.

Section SketchAnyBus.

Context {W : Type} `{TwoWire W}.

(** One pass of [loop], spelled out. *)
Lemma loop_outcome mc mt sk (w : W) sk' w' :
  loop mc mt sk w = Some (sk', w') ->
  exists cmp ch announce c' finish,
    read (compass sk) w = Some (cmp, w') /\
    ch = (let d := calibrationData sk in
          let moved := fun i => (_get cmp i <? fst d.[i]) || (_get cmp i >? snd d.[i]) in
          moved AxX || moved AxY || moved AxZ) /\
    announce = ch && negb (done sk) /\
    c' = (if announce then to_int mc else c sk) /\
    finish = (to_int (to_int mt - c') >? 5000) && negb (done sk) /\
    compass sk' = cmp /\
    (forall i, (calibrationData sk').[i]
               = (Z.min (fst (calibrationData sk).[i]) (_get cmp i),
                  Z.max (snd (calibrationData sk).[i]) (_get cmp i))) /\
    changed sk' = ch /\
    done sk' = done sk || finish /\
    t sk' = to_int mt /\ c sk' = c' /\
    serial sk'
      = serial sk
        ++ (if announce then [Println "CALIBRATING... Keep moving your sensor around."]
            else [])
        ++ (if finish then
              [Println "DONE. Copy the line below and paste it into your projects sketch.);";
               PrintlnEmpty;
               Print "compass.setCalibration(";
               PrintInt (fst (calibrationData sk').[AxX]); Print ", ";
               PrintInt (snd (calibrationData sk').[AxX]); Print ", ";
               PrintInt (fst (calibrationData sk').[AxY]); Print ", ";
               PrintInt (snd (calibrationData sk').[AxY]); Print ", ";
               PrintInt (fst (calibrationData sk').[AxZ]); Print ", ";
               PrintInt (snd (calibrationData sk').[AxZ]);
               Println ");"]
            else []).
Proof.
  unfold loop. destruct (read (compass sk) w) as [[cmp w1] |]; [| discriminate].
  rewrite bind_Some. cbn [fst snd].
  unfold getX, getY, getZ.
  rewrite track_spec. cbv beta iota zeta.
  rewrite track_spec. cbv beta iota zeta.
  rewrite track_spec. cbv beta iota zeta.
  cbn [orb fst snd].
  set (ch := (_ || _ || _ || _ || _ || _)%bool).
  intros E. exists cmp, ch.
  exists (ch && negb (done sk)).
  exists (if ch && negb (done sk) then to_int mc else c sk).
  exists ((to_int (to_int mt - (if ch && negb (done sk) then to_int mc else c sk))
           >? 5000) && negb (done sk)).
  assert (Hch : ch = ((_get cmp AxX <? fst (calibrationData sk).[AxX])
                      || (_get cmp AxX >? snd (calibrationData sk).[AxX])
                      || ((_get cmp AxY <? fst (calibrationData sk).[AxY])
                          || (_get cmp AxY >? snd (calibrationData sk).[AxY]))
                      || ((_get cmp AxZ <? fst (calibrationData sk).[AxZ])
                          || (_get cmp AxZ >? snd (calibrationData sk).[AxZ])))%bool).
  { subst ch. now rewrite !orb_assoc. }
  cbv zeta. rewrite <- Hch. clear Hch.
  destruct (ch && negb (done sk)) eqn:Ea;
    destruct ((to_int (_ - _) >? 5000) && negb (done sk)) eqn:Ef;
    injection E as <- <-; cbn [compass calibrationData changed done t c serial];
    (split; [reflexivity |]);
    (split; [reflexivity |]);
    (split; [reflexivity |]);
    (split; [reflexivity |]);
    (split; [reflexivity |]);
    (split; [reflexivity |]);
    (split; [intros i; now destruct i |]);
    (split; [reflexivity |]);
    (split; [now rewrite ?orb_true_r, ?orb_false_r |]);
    (split; [reflexivity |]);
    (split; [reflexivity |]);
    rewrite <- ?app_assoc, ?app_nil_r; reflexivity.
Qed.

End SketchAnyBus.

Lemma arr3_ext {A} (u v : arr3 A) : (forall i, u.[i] = v.[i]) -> u = v.
Proof.
  intros Hi. destruct u as [a b c0], v as [a' b' c']. 
  pose proof (Hi AxX) as Hx. pose proof (Hi AxY) as Hy. pose proof (Hi AxZ) as Hz.
  cbn in Hx, Hy, Hz. now subst.
Qed.

Section SketchProperties.

Context {W : Type} `{TwoWire W}.

(** X11. One pass of the sketch's [loop] reads the compass and widens the
    recorded bounds of each axis to include the value the getter returns:
    the new minimum and maximum are the old ones combined with the
    reading.  [changed] is set exactly when some bound moved. *)
Theorem loop_tracks_extremes (mc mt : Z) (sk sk' : state) (w w' : W) :
  loop mc mt sk w = Some (sk', w') ->
  read (compass sk) w = Some (compass sk', w') /\
  (forall i,
     let x := _get (compass sk') i in
     (calibrationData sk').[i]
       = (Z.min (fst (calibrationData sk).[i]) x, Z.max (snd (calibrationData sk).[i]) x) /\
     fst (calibrationData sk').[i] <= x <= snd (calibrationData sk').[i]) /\
  (changed sk' = true <-> calibrationData sk' <> calibrationData sk).
Proof.
  intros E.
  destruct (loop_outcome mc mt sk w sk' w' E)
    as (cmp & ch & an & c' & fin & Hr & Ech & _ & _ & _ & Hc & Hd & Hch & _).
  cbv zeta in Ech. rewrite Ech in Hch. clear Ech.
  subst cmp. split; [exact Hr |]. split.
  - intros i x. split; [apply Hd |]. rewrite Hd. cbn [fst snd]. lia.
  - rewrite Hch. split.
    + intros Hm Heq.
      assert (Hno : forall i,
                (_get (compass sk') i <? fst (calibrationData sk).[i])
                || (_get (compass sk') i >? snd (calibrationData sk).[i]) = false).
      { intros i. pose proof (Hd i) as Hi. rewrite Heq in Hi.
        destruct ((calibrationData sk).[i]) as [lo hi]. cbn [fst snd] in *.
        injection Hi as Hlo Hhi. apply orb_false_iff. rewrite Z.gtb_ltb.
        split; apply Z.ltb_ge; lia. }
      rewrite !Hno in Hm. discriminate Hm.
    + intros Hne.
      destruct ((_get (compass sk') AxX <? fst (calibrationData sk).[AxX])
                || (_get (compass sk') AxX >? snd (calibrationData sk).[AxX])) eqn:Ex;
        [reflexivity |].
      destruct ((_get (compass sk') AxY <? fst (calibrationData sk).[AxY])
                || (_get (compass sk') AxY >? snd (calibrationData sk).[AxY])) eqn:Ey;
        [reflexivity |].
      destruct ((_get (compass sk') AxZ <? fst (calibrationData sk).[AxZ])
                || (_get (compass sk') AxZ >? snd (calibrationData sk).[AxZ])) eqn:Ez;
        [reflexivity |].
      exfalso. apply Hne. apply arr3_ext. intros i. rewrite Hd.
      assert (Hi : (_get (compass sk') i <? fst (calibrationData sk).[i])
                   || (_get (compass sk') i >? snd (calibrationData sk).[i]) = false)
        by now destruct i.
      apply orb_false_iff in Hi as [H1 H2]. rewrite Z.gtb_ltb in H2.
      apply Z.ltb_ge in H1, H2.
      destruct ((calibrationData sk).[i]) as [lo hi]. cbn [fst snd] in *.
      f_equal; lia.
Qed.

(** X12. Over any number of passes the recorded bounds only widen, and
    because the sketch starts them at zero, zero always lies between the
    minimum and the maximum of every axis: a sensor whose readings on an
    axis are all positive is reported with minimum 0. *)
Theorem loops_bounds_widen (clock : list (Z * Z)) :
  forall (sk sk' : state) (w w' : W),
    loops clock sk w = Some (sk', w') ->
    (forall i, fst (calibrationData sk').[i] <= fst (calibrationData sk).[i] /\
               snd (calibrationData sk).[i] <= snd (calibrationData sk').[i]) /\
    (sk = start ->
     forall i, fst (calibrationData sk').[i] <= 0 <= snd (calibrationData sk').[i]).
Proof.
  assert (Hwiden : forall clock (sk sk' : state) (w w' : W),
            loops clock sk w = Some (sk', w') ->
            forall i, fst (calibrationData sk').[i] <= fst (calibrationData sk).[i] /\
                      snd (calibrationData sk).[i] <= snd (calibrationData sk').[i]).
  { clear clock. induction clock as [| [mc mt] clock IH]; intros sk sk' w w' E i.
    - cbn in E. injection E as <- _. lia.
    - cbn [loops] in E.
      destruct (loop mc mt sk w) as [[sk1 w1] |] eqn:E1; [| discriminate E].
      rewrite bind_Some in E. cbn [fst snd] in E.
      destruct (loop_outcome mc mt sk w sk1 w1 E1)
        as (cmp & ch & an & c' & fin & _ & _ & _ & _ & _ & _ & Hd & _).
      pose proof (IH sk1 sk' w1 w' E i) as Hrest.
      rewrite (Hd i) in Hrest. cbn [fst snd] in Hrest. lia. }
  intros sk sk' w w' E. split; [now apply (Hwiden clock sk sk' w w') |].
  intros -> i. pose proof (Hwiden clock start sk' w w' E i) as Hi.
  destruct i; cbn in Hi |- *; lia.
Qed.

(** X13. Once [done] is set it stays set, and no later pass prints
    anything, whatever the readings and the clock. *)
Theorem loop_done_is_final (mc mt : Z) (sk sk' : state) (w w' : W) :
  done sk = true ->
  loop mc mt sk w = Some (sk', w') ->
  done sk' = true /\ serial sk' = serial sk.
Proof.
  intros Hdone E.
  destruct (loop_outcome mc mt sk w sk' w' E)
    as (cmp & ch & an & c' & fin & _ & _ & Ean & _ & Efin & _ & _ & _ & Hd & _ & _ & Hs).
  rewrite Hdone in Ean, Efin, Hd. cbn [negb] in Ean, Efin.
  rewrite andb_false_r in Ean, Efin. subst an fin.
  split; [exact Hd |]. rewrite Hs. now rewrite !app_nil_r.
Qed.

(** X14. The pass that completes the calibration (more than 5000 ms on the
    16-bit clock since the last change) prints six numbers; passed in that
    order to [setCalibration] they install exactly the recorded bounds and
    switch calibration on. *)
Theorem loop_prints_bounds (mc mt : Z) (sk sk' : state) (w w' : W) :
  done sk = false ->
  loop mc mt sk w = Some (sk', w') ->
  done sk' = true ->
  5000 < to_int (t sk' - c sk') /\
  exists x_min x_max y_min y_max z_min z_max,
    printed_ints (drop (length (serial sk)) (serial sk'))
      = [x_min; x_max; y_min; y_max; z_min; z_max] /\
    forall cmp,
      _vCalibration (setCalibration x_min x_max y_min y_max z_min z_max cmp)
        = calibrationData sk' /\
      _calibrationUse (setCalibration x_min x_max y_min y_max z_min z_max cmp) = true.
Proof.
  intros Hnd E Hdone.
  destruct (loop_outcome mc mt sk w sk' w' E)
    as (cmp & ch & an & c' & fin & _ & _ & _ & _ & Efin & _ & _ & _ & Hd & Ht & Hc & Hs).
  rewrite Hnd, Hdone in Hd. cbn [orb] in Hd. symmetry in Hd.
  rewrite Hd in Hs, Efin. rewrite Hnd in Efin. cbn [negb] in Efin.
  rewrite andb_true_r, <- Ht, <- Hc in Efin. symmetry in Efin.
  split; [rewrite Z.gtb_ltb in Efin; now apply Z.ltb_lt in Efin |].
  exists (fst (calibrationData sk').[AxX]), (snd (calibrationData sk').[AxX]),
         (fst (calibrationData sk').[AxY]), (snd (calibrationData sk').[AxY]),
         (fst (calibrationData sk').[AxZ]), (snd (calibrationData sk').[AxZ]).
  split.
  - rewrite Hs, drop_app_length.
    match goal with |- context [if ?b then _ else _] => destruct b end; reflexivity.
  - intros cmp0. split; [| reflexivity].
    cbn [setCalibration _vCalibration].
    destruct (calibrationData sk') as [[a b] [a' b'] [a'' b'']]. reflexivity.
Qed.

End SketchProperties.

Lemma loop_tracks_extremes_witness :
  let w := device [Arr3 12 (-7) 0] in
  exists sk' w', loop 100 200 start w = Some (sk', w') /\
    calibrationData sk' = Arr3 (0, 12) (-7, 0) (0, 0) /\ changed sk' = true.
Proof.
  intros w.
  destruct (loop 100 200 start w) as [[sk' w'] |] eqn:E; [| vm_compute in E; discriminate E].
  exists sk', w'. split; [reflexivity |].
  destruct (loop_tracks_extremes 100 200 start sk' w w' E) as (_ & Hd & Hch).
  assert (Hdata : calibrationData sk' = Arr3 (0, 12) (-7, 0) (0, 0)).
  { vm_compute in E. injection E as <- _. reflexivity. }
  split; [exact Hdata |]. apply Hch. rewrite Hdata. discriminate.
Defined.

Lemma loops_bounds_widen_witness :
  let w := device [Arr3 12 7 3; Arr3 20 9 1] in
  exists sk' w', loops [(100, 200); (300, 400)] start w = Some (sk', w') /\
    forall i, fst (calibrationData sk').[i] <= 0 <= snd (calibrationData sk').[i].
Proof.
  intros w.
  destruct (loops [(100, 200); (300, 400)] start w) as [[sk' w'] |] eqn:E;
    [| vm_compute in E; discriminate E].
  exists sk', w'. split; [reflexivity |].
  exact (proj2 (loops_bounds_widen _ start sk' w w' E) eq_refl).
Defined.

Lemma loop_done_is_final_witness :
  let sk := MkState fresh (Arr3 (0, 0) (0, 0) (0, 0)) false true 6000 0 [PrintlnEmpty] in
  let w := device [Arr3 12 (-7) 0] in
  done sk = true /\
  exists sk' w', loop 9000 9000 sk w = Some (sk', w') /\
    done sk' = true /\ serial sk' = [PrintlnEmpty].
Proof.
  intros sk w. split; [reflexivity |].
  destruct (loop 9000 9000 sk w) as [[sk' w'] |] eqn:E; [| vm_compute in E; discriminate E].
  exists sk', w'. split; [reflexivity |].
  exact (loop_done_is_final 9000 9000 sk sk' w w' eq_refl E).
Defined.

Lemma loop_prints_bounds_witness :
  let sk := MkState fresh (Arr3 (-5, 9) (-3, 4) (-1, 2)) false false 0 1000 [] in
  let w := device [Arr3 1 1 1] in
  done sk = false /\
  exists sk' w', loop 6500 6500 sk w = Some (sk', w') /\ done sk' = true /\
    printed_ints (serial sk') = [-5; 9; -3; 4; -1; 2].
Proof.
  intros sk w. split; [reflexivity |].
  destruct (loop 6500 6500 sk w) as [[sk' w'] |] eqn:E; [| vm_compute in E; discriminate E].
  exists sk', w'. split; [reflexivity |].
  assert (Hdone : done sk' = true) by (vm_compute in E; now injection E as <- _).
  split; [exact Hdone |].
  destruct (loop_prints_bounds 6500 6500 sk sk' w w' eq_refl E Hdone)
    as (_ & a & b & c0 & d & e & f & Hp & _).
  vm_compute in E. injection E as <- _. reflexivity.
Defined.

(** X15. When [_applyCalibration] returns, it has changed nothing but the
    three calibrated values, and each of them fits an [int]: raw values,
    bounds, smoothing state and flags are as before. *)
Theorem applyCalibration_frame (st st' : Compass) :
  _applyCalibration st = Some st' ->
  exists v, st' = with_vCalibrated v st /\ forall i, in_int v.[i].
Proof.
  intros Hc. rewrite _applyCalibration_unfold in Hc.
  destruct (scale_axis _ _ (float_scale _ AxX)) as [cx |] eqn:Ex; [| discriminate Hc].
  rewrite bind_Some in Hc.
  destruct (scale_axis _ _ (float_scale _ AxY)) as [cy |] eqn:Ey; [| discriminate Hc].
  rewrite bind_Some in Hc.
  destruct (scale_axis _ _ (float_scale _ AxZ)) as [cz |] eqn:Ez; [| discriminate Hc].
  rewrite bind_Some in Hc. injection Hc as <-.
  exists (Arr3 cx cy cz). split; [reflexivity |].
  intros i. destruct i; [apply (scale_axis_int _ _ _ _ Ex)
                        | apply (scale_axis_int _ _ _ _ Ey)
                        | apply (scale_axis_int _ _ _ _ Ez)].
Qed.

Lemma applyCalibration_frame_witness :
  let st := with_vRaw (Arr3 5 (-7) 9)
              (setCalibration (-90) 110 (-100) 100 (-100) 100 fresh) in
  exists st', _applyCalibration st = Some st' /\
    exists v, st' = with_vCalibrated v st /\ forall i, in_int v.[i].
Proof.
  intros st.
  destruct (_applyCalibration st) as [st' |] eqn:E; [| vm_compute in E; discriminate E].
  exists st'. split; [reflexivity |]. exact (applyCalibration_frame st st' E).
Defined.
